(** * Contact form of the vehicle buy-back site: validation, attachment
    staging and submission (src/components/sections/Contact.tsx).

    The file holds two copies of the [Contact] component.  Both are embedded
    here, each in a module of its own ([Staged] for the first copy, which
    only stages the selected images, [Inline] for the second, which appends
    them to the request), over a common model of the JavaScript values, of
    the zod string checks and of the React state of the component. *)

From Stdlib Require Import ZArith NArith List String Ascii Bool Lia.
From Stdlib Require Import DecimalString.
From stdpp Require Import gmap strings list fin_maps.

Local Open Scope string_scope.
Local Open Scope list_scope.
Local Open Scope nat_scope.

(** ** JavaScript strings

    A JavaScript string is a sequence of UTF-16 code units and [length]
    counts code units.  Values typed by the user are kept in this form;
    the literals of the source (messages, field names) are Rocq strings. *)

Module Js.

Definition code_unit := N.
Definition jsstring := list code_unit.

(** WhiteSpace and LineTerminator of ECMAScript, the characters that
    [String.prototype.trim] strips. *)
Definition is_white_space (c : code_unit) : bool :=
  ((0x9 <=? c) && (c <=? 0xD)                (* TAB LF VT FF CR *)
   || (c =? 0x20) || (c =? 0xA0) || (c =? 0x1680)
   || (0x2000 <=? c) && (c <=? 0x200A)
   || (c =? 0x2028) || (c =? 0x2029) || (c =? 0x202F)
   || (c =? 0x205F) || (c =? 0x3000) || (c =? 0xFEFF))%N.

Fixpoint trimStart (s : jsstring) : jsstring :=
  match s with
  | [] => []
  | c :: rest => if is_white_space c then trimStart rest else s
  end.

Definition trimEnd (s : jsstring) : jsstring := rev (trimStart (rev s)).

Definition trim (s : jsstring) : jsstring := trimEnd (trimStart s).

(** A string that does not begin with white space. *)
Definition no_lead (s : jsstring) : Prop :=
  match s with
  | [] => True
  | c :: _ => is_white_space c = false
  end.

(** Code units of an ASCII literal, to write test inputs. *)
Fixpoint of_ascii (s : string) : jsstring :=
  match s with
  | EmptyString => []
  | String a rest => N_of_ascii a :: of_ascii rest
  end.

(** Text shown to the user or logged: a literal of the source, a value that
    came from outside, or a template literal with one interpolated value. *)
Inductive Text :=
| Lit (s : string)
| Dyn (v : jsstring)
| Template (before : string) (hole : jsstring) (after : string).

(** What a [catch] clause can receive in the submit handler. *)
Inductive JsError :=
| TypeError                  (* property access on null *)
| SyntaxError                (* response.json() on a body that is not JSON *)
| NetworkError               (* the promise of fetch rejects *)
| Error (message : Text).    (* new Error(message) *)

End Js.
Export Js.

(** ** The zod string schema

    [z.string()] followed by [.trim()], [.min(n, msg)], [.max(n, msg)] and
    [.email(msg)] builds a list of checks that the parser runs in the order
    they were added: [trim] replaces the value under test, every other check
    that fails adds an issue and the parser goes on with the next one. *)

Module Zod.

(** The pattern behind [.email()] is zod's own and differs between its
    releases, so the schema takes it as a parameter. *)
Class EmailRegex := email_test : jsstring -> bool.

Inductive ZodStringCheck :=
| check_trim
| check_min (value : nat) (message : string)
| check_max (value : nat) (message : string)
| check_email (message : string).

Record ZodIssue := { path : list string; message : string }.

Section Parse.
Context `{EmailRegex}.

(** One check on the current value: the value handed to the next check
    and the message of the issue, if the check failed. *)
Definition run_check (c : ZodStringCheck) (data : jsstring)
  : jsstring * option string :=
  match c with
  | check_trim => (trim data, None)
  | check_min value msg =>
      (data, if (length data <? value)%nat then Some msg else None)
  | check_max value msg =>
      (data, if (value <? length data)%nat then Some msg else None)
  | check_email msg =>
      (data, if email_test data then None else Some msg)
  end.

(** The loop over the checks: the final value and the messages of the
    issues, in the order they were raised. *)
Fixpoint parse_string (checks : list ZodStringCheck) (data : jsstring)
  : jsstring * list string :=
  match checks with
  | [] => (data, [])
  | c :: rest =>
      let '(data1, issue) := run_check c data in
      let '(out, issues) := parse_string rest data1 in
      (out, match issue with Some m => m :: issues | None => issues end)
  end.
End Parse.

(** [z.object(shape)]: every key of the shape is parsed, in the order of
    the shape, whatever happened to the keys before it; an issue carries
    the key as its path.  [safeParse] succeeds with the parsed values when
    no issue was raised. *)
Definition ZodObject (T : Type) : Type :=
  list (string * (T -> jsstring) * list ZodStringCheck).

Inductive SafeParseReturn :=
| ParseSuccess (data : list (string * jsstring))
| ParseError (issues : list ZodIssue).

Section Object.
Context `{EmailRegex} {T : Type}.

Fixpoint parse_object (shape : ZodObject T) (input : T)
  : list (string * jsstring) * list ZodIssue :=
  match shape with
  | [] => ([], [])
  | (key, get, checks) :: rest =>
      let '(out, msgs) := parse_string checks (get input) in
      let '(data, issues) := parse_object rest input in
      ((key, out) :: data,
       map (fun m => {| path := [key]; message := m |}) msgs ++ issues)
  end.

Definition safeParse (shape : ZodObject T) (input : T) : SafeParseReturn :=
  match parse_object shape input with
  | (data, []) => ParseSuccess data
  | (_, issues) => ParseError issues
  end.
End Object.


(** The pattern of zod 3.22 and later, case-insensitive: the string does
    not start with a dot and has no two dots in a row; before the only [@]
    come letters, digits and [_ ' + - .], the last of them not a dot or a
    quote; after it one or more labels (a letter or digit, then letters,
    digits and [-]) each closed by a dot, then two letters or more.  It is
    the instance the examples are evaluated with. *)
Definition is_letter (c : code_unit) : bool :=
  ((0x41 <=? c) && (c <=? 0x5A) || (0x61 <=? c) && (c <=? 0x7A))%N.
Definition is_digit (c : code_unit) : bool := ((0x30 <=? c) && (c <=? 0x39))%N.
Definition is_alnum (c : code_unit) : bool := is_letter c || is_digit c.
Definition is_local_end (c : code_unit) : bool :=
  is_alnum c || (c =? 0x5F)%N || (c =? 0x2B)%N || (c =? 0x2D)%N.
Definition is_local (c : code_unit) : bool :=
  is_local_end c || (c =? 0x27)%N || (c =? 0x2E)%N.
Definition is_label (c : code_unit) : bool := is_alnum c || (c =? 0x2D)%N.

(** [split_on sep s] cuts [s] at every [sep], like [s.split(sep)]. *)
Fixpoint split_on (sep : code_unit) (s : jsstring) : list jsstring :=
  match s with
  | [] => [[]]
  | c :: rest =>
      if (c =? sep)%N then [] :: split_on sep rest
      else match split_on sep rest with
           | [] => [[c]]
           | first :: others => (c :: first) :: others
           end
  end.

Fixpoint double_dot (s : jsstring) : bool :=
  match s with
  | a :: ((b :: _) as rest) => (a =? 0x2E)%N && (b =? 0x2E)%N || double_dot rest
  | _ => false
  end.

Definition local_ok (s : jsstring) : bool :=
  match rev s with
  | [] => false
  | last :: _ =>
      is_local_end last && forallb is_local s && negb (double_dot s)
      && match s with c :: _ => negb (c =? 0x2E)%N | [] => false end
  end.

Definition label_ok (s : jsstring) : bool :=
  match s with
  | [] => false
  | c :: rest => is_alnum c && forallb is_label rest
  end.

Definition tld_ok (s : jsstring) : bool :=
  (2 <=? length s)%nat && forallb is_letter s.

Definition domain_ok (s : jsstring) : bool :=
  match rev (split_on 0x2E%N s) with
  | tld :: ((_ :: _) as labels) => tld_ok tld && forallb label_ok labels
  | _ => false
  end.

Definition zod3_email : EmailRegex := fun s =>
  match split_on 0x40%N s with
  | [local; domain] => local_ok local && domain_ok domain
  | _ => false
  end.

End Zod.
Export Zod.

(** ** The component: its state, the form and what it does to the outside *)

Module Component.

Record File := { file_name : jsstring; file_size : N }.

(** The object literal [formValues] that the submit handler validates. *)
Record FormValues := {
  name : jsstring;
  email : jsstring;
  phone : jsstring;
  car_make_model : jsstring;
  year : jsstring;
  mileage : jsstring;
}.

(** The controls of the form that the user fills in, each under the [name]
    attribute it has in the markup ([notes] is the text area, named
    [additional_info] in the first copy and [message] in the second).  All
    of them are rendered unconditionally, so [FormData.get] on one of these
    names returns the current value of the control. *)
Record FormControls := {
  input_name : jsstring;
  input_email : jsstring;
  input_phone : jsstring;
  input_car_make_model : jsstring;
  input_year : jsstring;
  input_mileage : jsstring;
  fuel_type : jsstring;
  transmission : jsstring;
  engine_size : jsstring;
  engine_power : jsstring;
  notes : jsstring;
}.

(** [form.reset()]: every control goes back to its default value, which is
    empty for all of them. *)
Definition blank_form : FormControls :=
  {| input_name := []; input_email := []; input_phone := [];
     input_car_make_model := []; input_year := []; input_mileage := [];
     fuel_type := []; transmission := []; engine_size := [];
     engine_power := []; notes := [] |}.

(** A [FormData]: the controls as they were when it was built, the names of
    the hidden inputs (their values are constants of the markup) and the
    entries appended afterwards. *)
Record FormData := {
  controls : FormControls;
  hidden : list string;
  appended : list (nat * File);      (* attachment_<index>, file *)
}.

Record Request := { url : string; method : string; body : FormData }.

(** What the awaited [fetch] can come back with.  [json] is the parsed
    body when the body is JSON: [JNull] for [null], otherwise the truthiness
    of its [success] property and its [message] property when truthy. *)
Inductive JsonValue :=
| JNull
| JValue (success : bool) (message : option jsstring).

Record Response := { ok : bool; json : option JsonValue }.

Inductive FetchResult :=
| Rejects
| Resolves (response : Response).

(** The argument of [toast]; the styling class of the success toast is
    left out. *)
Inductive ToastVariant := default | destructive.

Record Toast := {
  variant : ToastVariant;
  title : string;
  description : Text;
}.

(** The submit event.  [currentTarget] is the form while the listener is
    being called and null once the dispatch is over. *)
Inductive HTMLFormElement := contact_form.

Record FormEvent := { currentTarget : option HTMLFormElement }.

(** The three [useState] cells of the component, the form in the document,
    and the record of what the component did to the outside: the toasts it
    showed, what it wrote to the console, the requests it sent. *)
Record State := {
  isSubmitting : bool;
  uploadedFiles : list File;
  errors : gmap string string;
  form : FormControls;
  toasts : list Toast;
  console : list JsError;
  requests : list Request;
}.

Definition setIsSubmitting (b : bool) (st : State) : State :=
  {| isSubmitting := b; uploadedFiles := uploadedFiles st;
     errors := errors st; form := form st; toasts := toasts st;
     console := console st; requests := requests st |}.

Definition setUploadedFiles (f : list File -> list File) (st : State) : State :=
  {| isSubmitting := isSubmitting st; uploadedFiles := f (uploadedFiles st);
     errors := errors st; form := form st; toasts := toasts st;
     console := console st; requests := requests st |}.

Definition setErrors (m : gmap string string) (st : State) : State :=
  {| isSubmitting := isSubmitting st; uploadedFiles := uploadedFiles st;
     errors := m; form := form st; toasts := toasts st;
     console := console st; requests := requests st |}.

Definition set_form (f : FormControls) (st : State) : State :=
  {| isSubmitting := isSubmitting st; uploadedFiles := uploadedFiles st;
     errors := errors st; form := f; toasts := toasts st;
     console := console st; requests := requests st |}.

Definition toast (t : Toast) (st : State) : State :=
  {| isSubmitting := isSubmitting st; uploadedFiles := uploadedFiles st;
     errors := errors st; form := form st; toasts := toasts st ++ [t];
     console := console st; requests := requests st |}.

Definition console_error (err : JsError) (st : State) : State :=
  {| isSubmitting := isSubmitting st; uploadedFiles := uploadedFiles st;
     errors := errors st; form := form st; toasts := toasts st;
     console := console st ++ [err]; requests := requests st |}.

Definition fetch (r : Request) (st : State) : State :=
  {| isSubmitting := isSubmitting st; uploadedFiles := uploadedFiles st;
     errors := errors st; form := form st; toasts := toasts st;
     console := console st; requests := requests st ++ [r] |}.

(** *** Statements that may throw

    The body of the [try] of the submit handler runs in a state and either
    completes or throws. *)
Inductive Completion (A : Type) :=
| Normal (a : A)
| Throw (err : JsError).
Arguments Normal {A} a.
Arguments Throw {A} err.

Definition Js (A : Type) : Type := State -> State * Completion A.

Definition throw {A} (err : JsError) : Js A := fun st => (st, Throw err).
Definition perform (f : State -> State) : Js unit := fun st => (f st, Normal tt).

#[global] Instance Js_ret : MRet Js := fun A a st => (st, Normal a).
#[global] Instance Js_bind : MBind Js := fun A B k m st =>
  match m st with
  | (st1, Normal a) => k a st1
  | (st1, Throw err) => (st1, Throw err)
  end.

(** [try { body } catch (error) { handler } finally { final }], for a
    handler and a [finally] block that do not throw. *)
Definition try_catch_finally (body : Js unit) (handler : JsError -> State -> State)
    (final : State -> State) (st : State) : State :=
  match body st with
  | (st1, Normal _) => final st1
  | (st1, Throw err) => final (handler err st1)
  end.

(** [e.currentTarget.reset()]. *)
Definition reset_currentTarget (e : FormEvent) : Js unit :=
  match currentTarget e with
  | Some contact_form => perform (set_form blank_form)
  | None => throw TypeError
  end.

(** How far a call of the handler got when it gave control back. *)
Inductive Suspension :=
| Returned                 (* ran to its end *)
| Awaiting                 (* suspended at [await fetch(...)] *)
| Rejected (err : JsError).  (* threw outside the [try] *)

(** The values that [formData.get] reads for the object [formValues]. *)
Definition formValues_of (c : FormControls) : FormValues :=
  {| name := input_name c; email := input_email c; phone := input_phone c;
     car_make_model := input_car_make_model c; year := input_year c;
     mileage := input_mileage c |}.

(** [arr.filter((_, i) => i !== index)] for a numeric [index]; [i] is the
    position of the element, counted from [from]. *)
Fixpoint filter_index_ne {A} (from : nat) (index : Z) (arr : list A) : list A :=
  match arr with
  | [] => []
  | x :: rest =>
      if (Z.of_nat from =? index)%Z then filter_index_ne (S from) index rest
      else x :: filter_index_ne (S from) index rest
  end.

End Component.
Export Component.

(** ** First copy of the component: the images are staged only *)

Module Staged.

Definition contactSchema : ZodObject FormValues :=
  [ ("name", name,
      [check_trim; check_min 2 "Ime mora imati najmanje 2 znaka";
       check_max 100 "Ime može imati najviše 100 znakova"]);
    ("email", email, [check_trim; check_email "Neispravna email adresa"]);
    ("phone", phone,
      [check_trim; check_min 6 "Broj telefona mora imati najmanje 6 znamenki"]);
    ("car_make_model", car_make_model,
      [check_trim; check_min 2 "Unesite marku i model"]);
    ("year", year, [check_trim; check_min 4 "Unesite godinu (npr. 2020)"]);
    ("mileage", mileage, [check_trim; check_min 1 "Unesite kilometražu"]) ].

(** The names of the hidden inputs of the form, in document order. *)
Definition hidden_inputs : list string :=
  ["access_key"; "subject"; "from_name"; "redirect"; "message"; "autoresponse"].

(** The callback of [files.filter]: an oversized file is announced and
    dropped. *)
Fixpoint filter_files (files : list File) (st : State) : State * list File :=
  match files with
  | [] => (st, [])
  | file :: rest =>
      if (10 * 1024 * 1024 <? file_size file)%N then
        filter_files rest
          (toast {| variant := destructive; title := "Greška";
                    description :=
                      Template "Slika " (file_name file)
                        " je prevelika. Maksimalna veličina je 10MB." |} st)
      else
        let '(st1, validFiles) := filter_files rest st in
        (st1, file :: validFiles)
  end.

(** [target_files] is [e.target.files], null when the input has none. *)
Definition handleFileChange (target_files : option (list File)) (st : State) : State :=
  let files := match target_files with Some l => l | None => [] end in
  let '(st1, validFiles) := filter_files files st in
  setUploadedFiles (fun prev => prev ++ validFiles) st1.

Definition removeFile (index : Z) (st : State) : State :=
  setUploadedFiles (fun prev => filter_index_ne 0 index prev) st.

(** The [forEach] over the issues that fills [newErrors]; a later issue of
    the same field overwrites an earlier one. *)
Definition collect_errors (issues : list ZodIssue) : gmap string string :=
  fold_left
    (fun newErrors err =>
       match path err with
       | key :: _ => if decide (key = "") then newErrors
                     else <[key := message err]> newErrors
       | [] => newErrors
       end)
    issues ∅.

Section Validate.
Context `{EmailRegex}.

(** The error map the submit handler computes for [formValues]: empty
    when [safeParse] succeeds, [newErrors] otherwise. *)
Definition validate (formValues : FormValues) : gmap string string :=
  match safeParse contactSchema formValues with
  | ParseSuccess _ => ∅
  | ParseError issues => collect_errors issues
  end.

Definition is_valid (formValues : FormValues) : bool :=
  match safeParse contactSchema formValues with
  | ParseSuccess _ => true
  | ParseError _ => false
  end.
End Validate.

Section Submit.
Context `{EmailRegex}.

(** [handleSubmit] up to its first [await]. *)
Definition handleSubmit_start (e : FormEvent) (st : State) : State * Suspension :=
  let st := setErrors ∅ st in
  let st := setIsSubmitting true st in
  match currentTarget e with
  | None => (st, Rejected TypeError)         (* new FormData(null) *)
  | Some contact_form =>
      let formData :=
        {| controls := form st; hidden := hidden_inputs; appended := [] |} in
      let formValues :=
        {| name := input_name (controls formData);
           email := input_email (controls formData);
           phone := input_phone (controls formData);
           car_make_model := input_car_make_model (controls formData);
           year := input_year (controls formData);
           mileage := input_mileage (controls formData) |} in
      match safeParse contactSchema formValues with
      | ParseError issues =>
          let newErrors := collect_errors issues in
          let st := setErrors newErrors st in
          let st :=
            toast {| variant := destructive; title := "Greška u formi";
                     description :=
                       Lit "Molimo ispravite označena polja prije slanja." |} st in
          let st := setIsSubmitting false st in
          (st, Returned)
      | ParseSuccess _ =>
          (fetch {| url := "https://api.web3forms.com/submit";
                    method := "POST"; body := formData |} st,
           Awaiting)
      end
  end.

(** The rest of [handleSubmit], from the moment the awaited [fetch]
    settles. *)
Definition handleSubmit_resume (e : FormEvent) (result : FetchResult)
  : State -> State :=
  try_catch_finally
    (response ← match result with
                | Resolves r => mret r
                | Rejects => throw NetworkError
                end;
     data ← match json response with
            | Some v => mret v
            | None => throw SyntaxError
            end;
     match data with
     | JNull => throw TypeError                      (* null.success *)
     | JValue true _ =>
         perform (toast {| variant := default;
                           title := "✅ Poruka uspješno poslana!";
                           description :=
                             Lit "Primili ste potvrdu na vašu email adresu. Javit ćemo vam se uskoro." |});;
         reset_currentTarget e;;
         perform (setUploadedFiles (fun _ => []));;
         perform (setErrors ∅)
     | JValue false msg =>
         throw (Error match msg with
                      | Some m => Dyn m
                      | None => Lit "Submission failed"
                      end)
     end)
    (fun error st =>
       let st := console_error error st in
       toast {| variant := destructive; title := "❌ Greška pri slanju";
                description :=
                  Lit "Molimo pokušajte ponovno ili nas nazovite direktno." |} st)
    (setIsSubmitting false).
End Submit.

End Staged.

(** ** Second copy of the component: the images go into the request *)

Module Inline.

Definition contactSchema : ZodObject FormValues :=
  [ ("name", name,
      [check_trim; check_min 2 "Ime mora imati najmanje 2 znaka";
       check_max 100 "Ime može imati najviše 100 znakova"]);
    ("email", email, [check_trim; check_email "Neispravna email adresa"]);
    ("phone", phone,
      [check_trim; check_min 6 "Broj telefona mora imati najmanje 6 znamenki"]);
    ("car_make_model", car_make_model,
      [check_trim; check_min 2 "Unesite marku i model"]);
    ("year", year, [check_trim; check_min 4 "Unesite godinu (npr. 2020)"]);
    ("mileage", mileage, [check_trim; check_min 1 "Unesite kilometražu"]) ].

Definition hidden_inputs : list string :=
  ["access_key"; "subject"; "from_name"; "autoresponse"; "replyto";
   "template"; "email_template"; "autoresponse_template"].

Fixpoint filter_files (files : list File) (st : State) : State * list File :=
  match files with
  | [] => (st, [])
  | file :: rest =>
      if (10 * 1024 * 1024 <? file_size file)%N then
        filter_files rest
          (toast {| variant := destructive; title := "Greška";
                    description :=
                      Template "Slika " (file_name file)
                        " je prevelika. Maksimalna veličina je 10MB." |} st)
      else
        let '(st1, validFiles) := filter_files rest st in
        (st1, file :: validFiles)
  end.

Definition handleFileChange (target_files : option (list File)) (st : State) : State :=
  let files := match target_files with Some l => l | None => [] end in
  let '(st1, validFiles) := filter_files files st in
  setUploadedFiles (fun prev => prev ++ validFiles) st1.

Definition removeFile (index : Z) (st : State) : State :=
  setUploadedFiles (fun prev => filter_index_ne 0 index prev) st.

Definition collect_errors (issues : list ZodIssue) : gmap string string :=
  fold_left
    (fun newErrors err =>
       match path err with
       | key :: _ => if decide (key = "") then newErrors
                     else <[key := message err]> newErrors
       | [] => newErrors
       end)
    issues ∅.

Section Validate.
Context `{EmailRegex}.

(** The error map the submit handler computes for [formValues]: empty
    when [safeParse] succeeds, [newErrors] otherwise. *)
Definition validate (formValues : FormValues) : gmap string string :=
  match safeParse contactSchema formValues with
  | ParseSuccess _ => ∅
  | ParseError issues => collect_errors issues
  end.

Definition is_valid (formValues : FormValues) : bool :=
  match safeParse contactSchema formValues with
  | ParseSuccess _ => true
  | ParseError _ => false
  end.
End Validate.

(** [uploadedFiles.forEach((file, index) => formData.append(...))]. *)
Fixpoint append_attachments (index : nat) (files : list File) (fd : FormData) : FormData :=
  match files with
  | [] => fd
  | file :: rest =>
      append_attachments (S index) rest
        {| controls := controls fd; hidden := hidden fd;
           appended := appended fd ++ [(index, file)] |}
  end.

Section Submit.
Context `{EmailRegex}.

Definition handleSubmit_start (e : FormEvent) (st0 : State)
  : State * Suspension :=
  let st := setErrors ∅ st0 in
  let st := setIsSubmitting true st in
  match currentTarget e with
  | None => (st, Rejected TypeError)
  | Some contact_form =>
      let formData :=
        {| controls := form st; hidden := hidden_inputs; appended := [] |} in
      let formValues :=
        {| name := input_name (controls formData);
           email := input_email (controls formData);
           phone := input_phone (controls formData);
           car_make_model := input_car_make_model (controls formData);
           year := input_year (controls formData);
           mileage := input_mileage (controls formData) |} in
      match safeParse contactSchema formValues with
      | ParseError issues =>
          let newErrors := collect_errors issues in
          let st := setErrors newErrors st in
          let st :=
            toast {| variant := destructive; title := "Greška u formi";
                     description :=
                       Lit "Molimo ispravite označena polja prije slanja." |} st in
          let st := setIsSubmitting false st in
          (st, Returned)
      | ParseSuccess _ =>
          let formData := append_attachments 0 (uploadedFiles st0) formData in
          (fetch {| url := "https://api.web3forms.com/submit";
                    method := "POST"; body := formData |} st,
           Awaiting)
      end
  end.

Definition handleSubmit_resume (e : FormEvent) (result : FetchResult)
  : State -> State :=
  try_catch_finally
    (response ← match result with
                | Resolves r => mret r
                | Rejects => throw NetworkError
                end;
     if ok response then
       perform (toast {| variant := default;
                         title := "✅ Poruka uspješno poslana!";
                         description :=
                           Lit "Primili ste potvrdu na vašu email adresu. Javit ćemo vam se uskoro." |});;
       reset_currentTarget e;;
       perform (setUploadedFiles (fun _ => []));;
       perform (setErrors ∅)
     else throw (Error (Lit "Submission failed")))
    (fun error st =>
       toast {| variant := destructive; title := "❌ Greška pri slanju";
                description :=
                  Lit "Molimo pokušajte ponovno ili nas nazovite direktno." |} st)
    (setIsSubmitting false).
End Submit.

End Inline.

(** ** The page: the component between two events

    Handlers run one at a time, each to its end or to its [await].  React
    calls the submit listener with [currentTarget] set to the form and
    sets it back to null as soon as the listener returns, which for an
    [async] listener is at its first [await]; the rest of the listener
    runs later with the same event object.  The submit button carries
    [disabled={isSubmitting}], so no submit event is delivered while the
    flag is set. *)

Module Page.

Inductive Copy := staged | inline.

Record Handlers := {
  on_file_change : option (list File) -> State -> State;
  on_remove : Z -> State -> State;
  on_submit : FormEvent -> State -> State * Suspension;
  on_settle : FormEvent -> FetchResult -> State -> State;
}.

(** [awaiting] holds the event object of every call of the submit handler
    that is suspended at its [await], oldest first. *)
Record Page := { ui : State; awaiting : list FormEvent }.

Inductive Action :=
| Edit (f : FormControls)                       (* the user changes controls *)
| ChooseFiles (files : option (list File))      (* change event of the file input *)
| ClickRemove (index : Z)                       (* remove button of a preview *)
| SubmitForm                                    (* submit gesture *)
| FetchSettles (k : nat) (result : FetchResult). (* the k-th pending fetch settles *)

Definition initial : Page :=
  {| ui := {| isSubmitting := false; uploadedFiles := []; errors := ∅;
              form := blank_form; toasts := []; console := [];
              requests := [] |};
     awaiting := [] |}.

Section Step.
Context `{EmailRegex}.

Definition handlers (c : Copy) : Handlers :=
  match c with
  | staged =>
      {| on_file_change := Staged.handleFileChange;
         on_remove := Staged.removeFile;
         on_submit := Staged.handleSubmit_start;
         on_settle := Staged.handleSubmit_resume |}
  | inline =>
      {| on_file_change := Inline.handleFileChange;
         on_remove := Inline.removeFile;
         on_submit := Inline.handleSubmit_start;
         on_settle := Inline.handleSubmit_resume |}
  end.

Definition dispatch_submit (c : Copy) (p : Page) : Page :=
  let '(st, s) := on_submit (handlers c) {| currentTarget := Some contact_form |} (ui p) in
  match s with
  | Awaiting => {| ui := st; awaiting := awaiting p ++ [{| currentTarget := None |}] |}
  | Returned | Rejected _ => {| ui := st; awaiting := awaiting p |}
  end.

Definition step (c : Copy) (p : Page) (a : Action) : Page :=
  match a with
  | Edit f => {| ui := set_form f (ui p); awaiting := awaiting p |}
  | ChooseFiles files =>
      {| ui := on_file_change (handlers c) files (ui p); awaiting := awaiting p |}
  | ClickRemove index =>
      {| ui := on_remove (handlers c) index (ui p); awaiting := awaiting p |}
  | SubmitForm => if isSubmitting (ui p) then p else dispatch_submit c p
  | FetchSettles k result =>
      match awaiting p !! k with
      | Some e => {| ui := on_settle (handlers c) e result (ui p);
                     awaiting := delete k (awaiting p) |}
      | None => p
      end
  end.

Definition run (c : Copy) (p : Page) (actions : list Action) : Page :=
  fold_left (step c) actions p.

Definition contactSchema (c : Copy) : ZodObject FormValues :=
  match c with
  | staged => Staged.contactSchema
  | inline => Inline.contactSchema
  end.

Definition validate (c : Copy) : FormValues -> gmap string string :=
  match c with staged => Staged.validate | inline => Inline.validate end.

Definition is_valid (c : Copy) : FormValues -> bool :=
  match c with staged => Staged.is_valid | inline => Inline.is_valid end.

(** What each copy takes for a successful submission. *)
Definition reports_success (c : Copy) (result : FetchResult) : bool :=
  match c, result with
  | _, Rejects => false
  | staged, Resolves r =>
      match json r with Some (JValue success _) => success | _ => false end
  | inline, Resolves r => ok r
  end.
End Step.

End Page.
Export Page.

(** ** Inputs used in the examples *)

Module Samples.

Definition ana : FormControls :=
  {| input_name := of_ascii "Ana Ani" ++ [0x107%N];
     input_email := of_ascii "ana@example.com";
     input_phone := of_ascii "0991234567";
     input_car_make_model := of_ascii "VW Golf";
     input_year := of_ascii "2015";
     input_mileage := of_ascii "150000";
     fuel_type := of_ascii "dizel"; transmission := [];
     engine_size := []; engine_power := []; notes := [] |}.

Definition with_email (v : jsstring) (c : FormControls) : FormControls :=
  {| input_name := input_name c; input_email := v;
     input_phone := input_phone c;
     input_car_make_model := input_car_make_model c;
     input_year := input_year c; input_mileage := input_mileage c;
     fuel_type := fuel_type c; transmission := transmission c;
     engine_size := engine_size c; engine_power := engine_power c;
     notes := notes c |}.

Definition with_phone (v : jsstring) (c : FormControls) : FormControls :=
  {| input_name := input_name c; input_email := input_email c;
     input_phone := v;
     input_car_make_model := input_car_make_model c;
     input_year := input_year c; input_mileage := input_mileage c;
     fuel_type := fuel_type c; transmission := transmission c;
     engine_size := engine_size c; engine_power := engine_power c;
     notes := notes c |}.

Definition MB : N := 1024 * 1024.
Definition photo9 : File := {| file_name := of_ascii "golf.jpg"; file_size := 9 * MB |}.
Definition photo11 : File := {| file_name := of_ascii "big.jpg"; file_size := 11 * MB |}.

End Samples.
Import Samples.

(** ** The rules of the specification, as it words them

    The specification gives each required field one rule on the value of
    the field: name length 2 to 100, well-formed email, phone length at
    least 6, make and model length at least 2, year length at least 4,
    mileage not empty.  [spec_rule] reads these words on the value as
    entered. *)

Module Spec.

Section Rules.
Context `{EmailRegex}.

Definition spec_rule (key : string) (value : jsstring) : bool :=
  if decide (key = "name") then (2 <=? length value) && (length value <=? 100)
  else if decide (key = "email") then email_test value
  else if decide (key = "phone") then 6 <=? length value
  else if decide (key = "car_make_model") then 2 <=? length value
  else if decide (key = "year") then 4 <=? length value
  else if decide (key = "mileage") then negb (length value =? 0)
  else true.
End Rules.

(** The message of the first rule that is violated, for rules given with
    their verdict in the order they are declared. *)
Fixpoint first_violation (rules : list (bool * string)) : option string :=
  match rules with
  | [] => None
  | (violated, msg) :: rest => if violated then Some msg else first_violation rest
  end.

(** The value of a required field, by its key. *)
Definition field_value (key : string) (fv : FormValues) : jsstring :=
  if decide (key = "name") then name fv
  else if decide (key = "email") then email fv
  else if decide (key = "phone") then phone fv
  else if decide (key = "car_make_model") then car_make_model fv
  else if decide (key = "year") then year fv
  else if decide (key = "mileage") then mileage fv
  else [].

(** The keys of the required fields. *)
Definition field_keys : gset string :=
  {[ "name"; "email"; "phone"; "car_make_model"; "year"; "mileage" ]}.

(** The four notifications of the component. *)
Definition too_large_toast (file : File) : Toast :=
  {| variant := destructive; title := "Greška";
     description :=
       Template "Slika " (file_name file)
         " je prevelika. Maksimalna veličina je 10MB." |}.

Definition form_error_toast : Toast :=
  {| variant := destructive; title := "Greška u formi";
     description := Lit "Molimo ispravite označena polja prije slanja." |}.

Definition sent_toast : Toast :=
  {| variant := default; title := "✅ Poruka uspješno poslana!";
     description :=
       Lit "Primili ste potvrdu na vašu email adresu. Javit ćemo vam se uskoro." |}.

Definition send_failed_toast : Toast :=
  {| variant := destructive; title := "❌ Greška pri slanju";
     description := Lit "Molimo pokušajte ponovno ili nas nazovite direktno." |}.

(** The cap on the size of an image, 10MB, in bytes. *)
Definition size_cap : N := 10485760.

Definition oversized (file : File) : bool := (size_cap <? file_size file)%N.

(** The request of a copy for a form and a list of staged files. *)
Definition request_of (c : Copy) (controls : FormControls) (files : list File)
  : Request :=
  {| url := "https://api.web3forms.com/submit"; method := "POST";
     body :=
       match c with
       | staged =>
           {| controls := controls; hidden := Staged.hidden_inputs;
              appended := [] |}
       | inline =>
           {| controls := controls; hidden := Inline.hidden_inputs;
              appended := imap (fun i file => (i, file)) files |}
       end |}.

(** The part of the state that the user can see. *)
Definition visible (st : State)
  : bool * list File * gmap string string * FormControls * list Toast :=
  (isSubmitting st, uploadedFiles st, errors st, form st, toasts st).

(** The event object of a suspended call: the dispatch is over. *)
Definition stale_event : FormEvent := {| currentTarget := None |}.

(** What holds of the page between two events. *)
Definition consistent (p : Page) : Prop :=
  awaiting p = (if isSubmitting (ui p) then [stale_event] else [])
  ∧ dom (errors (ui p)) ⊆ field_keys
  ∧ Forall (fun f => oversized f = false) (uploadedFiles (ui p)).

(** An action on which the two copies read the same outcome: every action
    but the settling of a request whose HTTP status and JSON body
    disagree. *)
Definition indicators_agree (a : Action) : Prop :=
  match a with
  | FetchSettles _ (Resolves r) =>
      ok r = match json r with Some (JValue success _) => success | _ => false end
  | _ => True
  end.

(** A response with status 200 whose body says [success: false]. *)
Definition refused_200 : FetchResult :=
  Resolves {| ok := true; json := Some (JValue false None) |}.

(** A response with status 200 whose body says [success: true]. *)
Definition accepted_200 : FetchResult :=
  Resolves {| ok := true; json := Some (JValue true None) |}.

End Spec.
Export Spec.

(** ** The checks of one field of the schema *)

Module Field.

Section Field.
Context `{EmailRegex}.

Definition checks_of (schema : ZodObject FormValues) (key : string)
  : list ZodStringCheck :=
  match List.find (fun entry => bool_decide (entry.1.1 = key)) schema with
  | Some entry => entry.2
  | None => []
  end.

(** Whether the value passes the checks the schema has for the field. *)
Definition passes (schema : ZodObject FormValues) (key : string)
    (value : jsstring) : bool :=
  match (parse_string (checks_of schema key) value).2 with
  | [] => true
  | _ :: _ => false
  end.
End Field.

End Field.
Export Field.

(** ** What the component renders

    The parts of the markup that depend on the state: the class and the
    error paragraph of each required input, the grid of previews, the
    two texts of the upload area and the submit button.  The two copies
    differ in the hint of the upload area only. *)

Module Render.

Record FieldView := {
  className : string;
  message_shown : option string;     (* the paragraph under the input *)
}.

Record Preview := {
  preview_key : nat;                 (* key={index} *)
  preview_file : File;               (* src={URL.createObjectURL(file)} *)
  preview_alt : string;
  preview_caption : jsstring;        (* {file.name} *)
  preview_onClick : Action;          (* () => removeFile(index) *)
}.

Record View := {
  name_input : FieldView;
  email_input : FieldView;
  phone_input : FieldView;
  car_make_model_input : FieldView;
  year_input : FieldView;
  mileage_input : FieldView;
  previews : option (list Preview);  (* absent when the grid is not rendered *)
  upload_hint : string;
  upload_count : option string;
  submit_disabled : bool;
  submit_label : string;
}.

(** [errors.key] where it is used as a condition: the message when there is
    one and it is not the empty string. *)
Definition truthy_entry (errors : gmap string string) (key : string)
  : option string :=
  match errors !! key with
  | Some m => if decide (m = "") then None else Some m
  | None => None
  end.

(** An input whose class is the template literal [base ${errors.key ?
    "border-red-500" : ""}], followed by [errors.key && <p>...</p>]. *)
Definition field_view (base : string) (errors : gmap string string)
    (key : string) : FieldView :=
  {| className :=
       String.append base
         match truthy_entry errors key with
         | Some _ => "border-red-500"
         | None => ""
         end;
     message_shown := truthy_entry errors key |}.

(** A number in a template literal. *)
Definition decimal (n : nat) : string := NilZero.string_of_uint (Nat.to_uint n).

Definition preview_of (index : nat) (file : File) : Preview :=
  {| preview_key := index; preview_file := file;
     preview_alt := String.append "Preview " (decimal (index + 1));
     preview_caption := file_name file;
     preview_onClick := ClickRemove (Z.of_nat index) |}.

Definition render (c : Copy) (st : State) : View :=
  {| name_input := field_view "w-full h-12 text-base " (errors st) "name";
     email_input := field_view "w-full h-12 text-base " (errors st) "email";
     phone_input := field_view "w-full h-12 text-base " (errors st) "phone";
     car_make_model_input :=
       field_view "w-full h-12 text-base " (errors st) "car_make_model";
     year_input := field_view "h-12 text-base " (errors st) "year";
     mileage_input := field_view "h-12 text-base " (errors st) "mileage";
     previews :=
       if 0 <? length (uploadedFiles st)
       then Some (imap preview_of (uploadedFiles st))
       else None;
     upload_hint :=
       match c with
       | staged =>
           if 0 <? length (uploadedFiles st)
           then "Dodajte još slika automobila (reference)"
           else "Privremeno učitajte slike (kontaktirat ćemo vas za slanje)"
       | inline =>
           if 0 <? length (uploadedFiles st)
           then "Dodajte još slika automobila"
           else "Kliknite za učitavanje slika automobila"
       end;
     upload_count :=
       if 0 <? length (uploadedFiles st)
       then Some (String.append "("
                   (String.append (decimal (length (uploadedFiles st)))
                     (String.append " "
                       (String.append
                          (if length (uploadedFiles st) =? 1 then "slika" else "slike")
                          " učitano)"))))
       else None;
     submit_disabled := isSubmitting st;
     submit_label := if isSubmitting st then "Šalje se..." else "Pošaljite upit" |}.

(** The input of a required field, by the name of the field. *)
Definition input_of (v : View) (key : string) : option FieldView :=
  if decide (key = "name") then Some (name_input v)
  else if decide (key = "email") then Some (email_input v)
  else if decide (key = "phone") then Some (phone_input v)
  else if decide (key = "car_make_model") then Some (car_make_model_input v)
  else if decide (key = "year") then Some (year_input v)
  else if decide (key = "mileage") then Some (mileage_input v)
  else None.

(** Whether a string ends with another one. *)
Fixpoint ends_with (suffix s : string) : bool :=
  if String.eqb s suffix then true
  else match s with
       | EmptyString => false
       | String _ rest => ends_with suffix rest
       end.

(** Whether the input is drawn with the red border. *)
Definition marked_invalid (input : FieldView) : bool :=
  ends_with "border-red-500" (className input).

(** The files and the keys of the previews that are rendered. *)
Definition shown_files (v : View) : list File :=
  match previews v with
  | Some ps => map preview_file ps
  | None => []
  end.

Definition shown_keys (v : View) : list nat :=
  match previews v with
  | Some ps => map preview_key ps
  | None => []
  end.

End Render.
Export Render.

(** ** Notions used to state what the handlers do together *)

Module Derived.

(** The six values with the white space around each of them removed. *)
Definition trim_values (fv : FormValues) : FormValues :=
  {| name := trim (name fv); email := trim (email fv);
     phone := trim (phone fv); car_make_model := trim (car_make_model fv);
     year := trim (year fv); mileage := trim (mileage fv) |}.

(** A value made of white space only (or empty). *)
Definition blank (s : jsstring) : bool := forallb is_white_space s.

(** The notifications of a failed submission among the toasts shown. *)
Definition is_send_failed (t : Toast) : bool :=
  String.eqb (title t) (title send_failed_toast).

Definition count_send_failed (ts : list Toast) : nat :=
  length (List.filter is_send_failed ts).

(** Failure of a submission as the specification words it: a thrown
    transport error, a status that is not 2xx, or a body that is anything
    but JSON with a truthy success indicator. *)
Definition spec_failure (result : FetchResult) : bool :=
  match result with
  | Rejects => true
  | Resolves r =>
      negb (ok r)
      || negb match json r with
              | Some (JValue success _) => success
              | _ => false
              end
  end.


(** The actions by which the user fills the form: editing controls,
    choosing files, removing a preview. *)
Definition is_input (a : Action) : bool :=
  match a with
  | Edit _ | ChooseFiles _ | ClickRemove _ => true
  | SubmitForm | FetchSettles _ _ => false
  end.

End Derived.
Export Derived.

(** * Properties *)

(** ** Trimming *)

Section Trim.

Lemma trimStart_no_lead s : no_lead (trimStart s).
Proof.
  induction s as [|c s IH]; simpl; [exact I|].
  destruct (is_white_space c) eqn:E; [exact IH | exact E].
Qed.

Lemma trimStart_fixed s : no_lead s -> trimStart s = s.
Proof. destruct s as [|c s]; simpl; [reflexivity|]. now intros ->. Qed.

Lemma trimStart_suffix s : exists pre, s = pre ++ trimStart s.
Proof.
  induction s as [|c s [pre IH]]; simpl.
  - now exists [].
  - destruct (is_white_space c).
    + exists (c :: pre). simpl. now f_equal.
    + now exists [].
Qed.

Lemma trimEnd_prefix s : exists post, s = trimEnd s ++ post.
Proof.
  unfold trimEnd. destruct (trimStart_suffix (rev s)) as [pre E].
  exists (rev pre). rewrite <- rev_app_distr, <- E. now rewrite rev_involutive.
Qed.

Lemma trimEnd_no_lead s : no_lead s -> no_lead (trimEnd s).
Proof.
  intros Hs. destruct (trimEnd_prefix s) as [post E].
  destruct (trimEnd s) as [|c t]; [exact I|].
  rewrite E in Hs. exact Hs.
Qed.

Lemma trimEnd_fixed s : no_lead (rev s) -> trimEnd s = s.
Proof.
  intros Hs. unfold trimEnd. rewrite trimStart_fixed by exact Hs.
  apply rev_involutive.
Qed.

Lemma trim_no_lead s : no_lead (trim s).
Proof. apply trimEnd_no_lead, trimStart_no_lead. Qed.

Lemma trim_no_trail s : no_lead (rev (trim s)).
Proof.
  unfold trim, trimEnd. rewrite rev_involutive. apply trimStart_no_lead.
Qed.

Lemma trim_idempotent s : trim (trim s) = trim s.
Proof.
  unfold trim at 1. rewrite (trimStart_fixed (trim s)) by apply trim_no_lead.
  apply trimEnd_fixed, trim_no_trail.
Qed.

End Trim.

(** ** The schema, field by field *)

Section Schema.
Context `{EmailRegex}.

Lemma checks_of_name c :
  checks_of (contactSchema c) "name"
  = [check_trim; check_min 2 "Ime mora imati najmanje 2 znaka";
     check_max 100 "Ime može imati najviše 100 znakova"].
Proof. destruct c; reflexivity. Qed.

Lemma checks_of_phone c :
  checks_of (contactSchema c) "phone"
  = [check_trim; check_min 6 "Broj telefona mora imati najmanje 6 znamenki"].
Proof. destruct c; reflexivity. Qed.

Lemma checks_of_car c :
  checks_of (contactSchema c) "car_make_model"
  = [check_trim; check_min 2 "Unesite marku i model"].
Proof. destruct c; reflexivity. Qed.

Lemma checks_of_year c :
  checks_of (contactSchema c) "year"
  = [check_trim; check_min 4 "Unesite godinu (npr. 2020)"].
Proof. destruct c; reflexivity. Qed.

Lemma checks_of_mileage c :
  checks_of (contactSchema c) "mileage"
  = [check_trim; check_min 1 "Unesite kilometražu"].
Proof. destruct c; reflexivity. Qed.

(** A field with [trim] and a minimum passes exactly when its trimmed
    value is long enough, and so does its trimmed value. *)
Lemma passes_min (n : nat) (msg : string) (value : jsstring) :
  let verdict v :=
    match (parse_string [check_trim; check_min n msg] v).2 with
    | [] => true
    | _ :: _ => false
    end in
  verdict value = (n <=? length (trim value)) ∧ verdict value = verdict (trim value).
Proof.
  simpl. rewrite trim_idempotent. split; [|reflexivity].
  destruct (Nat.ltb_spec (length (trim value)) n) as [Hlt|Hge]; symmetry.
  - apply Nat.leb_gt. exact Hlt.
  - apply Nat.leb_le. exact Hge.
Qed.

Lemma passes_min_max (n m : nat) (msg1 msg2 : string) (value : jsstring) :
  let verdict v :=
    match (parse_string [check_trim; check_min n msg1; check_max m msg2] v).2 with
    | [] => true
    | _ :: _ => false
    end in
  verdict value = (n <=? length (trim value)) && (length (trim value) <=? m)
  ∧ verdict value = verdict (trim value).
Proof.
  simpl. rewrite trim_idempotent. split; [|reflexivity].
  destruct (Nat.ltb_spec (length (trim value)) n) as [Hlt|Hge];
    destruct (Nat.ltb_spec m (length (trim value))) as [Hgt|Hle];
    symmetry; rewrite ?andb_true_iff, ?andb_false_iff,
                ?Nat.leb_le, ?Nat.leb_gt; lia.
Qed.

(** C10. Every length rule of the schema is applied to the trimmed value
    of the field: for each of name, phone, make and model, year and
    mileage, a value passes the rule exactly when the length of its
    trimmed form is within the bounds, hence exactly when its trimmed
    form passes.  Five digits and a space fail the phone rule; a hundred
    letters and a space pass the name rule. *)
Theorem length_rules_on_trimmed_value (c : Copy) (value : jsstring) :
  let t := trim value in
  let ok := passes (contactSchema c) in
  (ok "name" value = (2 <=? length t) && (length t <=? 100)
   ∧ ok "name" value = ok "name" t)
  ∧ (ok "phone" value = (6 <=? length t) ∧ ok "phone" value = ok "phone" t)
  ∧ (ok "car_make_model" value = (2 <=? length t)
     ∧ ok "car_make_model" value = ok "car_make_model" t)
  ∧ (ok "year" value = (4 <=? length t) ∧ ok "year" value = ok "year" t)
  ∧ (ok "mileage" value = (1 <=? length t)
     ∧ ok "mileage" value = ok "mileage" t)
  ∧ ok "phone" (of_ascii "12345 ") = false
  ∧ ok "name" (repeat 0x61%N 100 ++ [0x20%N]) = true.
Proof.
  intros t ok. subst t ok. unfold passes.
  rewrite checks_of_name, checks_of_phone, checks_of_car, checks_of_year,
    checks_of_mileage.
  split; [apply passes_min_max|].
  repeat (split; [apply passes_min|]).
  split; vm_compute; reflexivity.
Qed.

End Schema.

(** ** Validation *)

Ltac split_checks :=
  repeat match goal with
         | |- context [if ?b then _ else _] =>
             match type of b with bool => destruct b eqn:? end
         end.

Ltac absurd_bounds :=
  exfalso;
  repeat match goal with
         | H : (_ <? _) = true |- _ => apply Nat.ltb_lt in H
         end;
  lia.

Section Validation.
Context `{EmailRegex}.

(** The two copies declare the same schema. *)
Lemma contactSchema_same c : contactSchema c = Staged.contactSchema.
Proof. destruct c; reflexivity. Qed.

Lemma validate_issues c fv :
  validate c fv = Staged.collect_errors (parse_object (contactSchema c) fv).2.
Proof.
  destruct c; unfold validate, Staged.validate, Inline.validate, safeParse;
    destruct (parse_object _ fv) as [data [|i issues]]; reflexivity.
Qed.

Lemma is_valid_issues c fv :
  is_valid c fv = match (parse_object (contactSchema c) fv).2 with
                  | [] => true
                  | _ :: _ => false
                  end.
Proof.
  destruct c; unfold is_valid, Staged.is_valid, Inline.is_valid, safeParse;
    destruct (parse_object _ fv) as [data [|i issues]]; reflexivity.
Qed.

(** The [forEach] only ever writes under the first path element of an
    issue. *)
Lemma collect_errors_dom (K : gset string) issues :
  Forall (fun i => forall k, head (path i) = Some k -> k ∈ K) issues ->
  dom (Staged.collect_errors issues) ⊆ K.
Proof.
  unfold Staged.collect_errors.
  assert (G : forall acc : gmap string string, dom acc ⊆ K ->
    Forall (fun i => forall k, head (path i) = Some k -> k ∈ K) issues ->
    dom (fold_left
           (fun newErrors err =>
              match path err with
              | key :: _ => if decide (key = "") then newErrors
                            else <[key := message err]> newErrors
              | [] => newErrors
              end) issues acc) ⊆ K).
  { induction issues as [|i issues IH]; intros acc Hacc Hall; simpl.
    - exact Hacc.
    - apply Forall_cons_1 in Hall as [Hi Hrest].
      apply IH; [|exact Hrest].
      destruct (path i) as [|key ks]; [exact Hacc|].
      destruct (decide (key = "")); [exact Hacc|].
      rewrite dom_insert. apply union_subseteq. split; [|exact Hacc].
      apply singleton_subseteq_l, Hi. reflexivity. }
  intros Hall. apply G; [|exact Hall]. rewrite dom_empty.
  apply empty_subseteq.
Qed.

(** Every issue of an object schema sits under a key of its shape. *)
Lemma parse_object_paths {T} (shape : ZodObject T) (input : T) :
  Forall (fun i => exists key, path i = [key] ∧ key ∈ map (fun e => e.1.1) shape)
         (parse_object shape input).2.
Proof.
  induction shape as [|[[key get] checks] shape IH]; simpl.
  - constructor.
  - destruct (parse_string checks (get input)) as [out msgs].
    destruct (parse_object shape input) as [data issues]. simpl in *.
    apply Forall_app. split.
    + apply List.Forall_forall. intros i Hi. apply in_map_iff in Hi.
      destruct Hi as (m & <- & _). exists key. split; [reflexivity|].
      left.
    + eapply Forall_impl; [exact IH|].
      intros i (k & Hp & Hk). exists k. split; [exact Hp|]. now right.
Qed.

Lemma validate_dom c fv : dom (validate c fv) ⊆ field_keys.
Proof.
  rewrite validate_issues. apply collect_errors_dom.
  eapply Forall_impl; [apply parse_object_paths|].
  intros i (key & Hp & Hk) k Hhead. rewrite Hp in Hhead. simpl in Hhead.
  injection Hhead as <-. unfold field_keys.
  destruct c; simpl in Hk;
    repeat (apply elem_of_cons in Hk as [->|Hk]; [set_solver|]);
    inversion Hk.
Qed.

Lemma validate_messages c fv :
  let errs := validate c fv in
  let t f := trim (f fv) in
  errs !! "name"
  = first_violation
      [(length (t name) <? 2, "Ime mora imati najmanje 2 znaka");
       (100 <? length (t name), "Ime može imati najviše 100 znakova")]
  ∧ errs !! "email"
    = first_violation [(negb (email_test (t email)), "Neispravna email adresa")]
  ∧ errs !! "phone"
    = first_violation
        [(length (t phone) <? 6, "Broj telefona mora imati najmanje 6 znamenki")]
  ∧ errs !! "car_make_model"
    = first_violation [(length (t car_make_model) <? 2, "Unesite marku i model")]
  ∧ errs !! "year"
    = first_violation [(length (t year) <? 4, "Unesite godinu (npr. 2020)")]
  ∧ errs !! "mileage"
    = first_violation [(length (t mileage) <? 1, "Unesite kilometražu")].
Proof.
  intros errs t. subst errs t. rewrite validate_issues, contactSchema_same.
  cbn -[trim Nat.ltb lookup Staged.collect_errors];
    split_checks; try absurd_bounds; repeat split; reflexivity.
Qed.

Lemma is_valid_no_errors c fv :
  is_valid c fv = bool_decide (validate c fv = ∅).
Proof.
  rewrite validate_issues, is_valid_issues, contactSchema_same.
  cbn -[trim Nat.ltb Staged.collect_errors bool_decide];
    split_checks; vm_compute; reflexivity.
Qed.

Lemma violated_min (len n : nat) (msg : string) :
  is_Some (first_violation [(len <? n, msg)]) <-> (n <=? len) = false.
Proof.
  simpl. destruct (Nat.ltb_spec len n) as [Hlt|Hge].
  - split; [intros _; apply Nat.leb_gt; exact Hlt | intros _; eexists; reflexivity].
  - split; [intros [m Hm]; discriminate Hm | ].
    intros E. apply Nat.leb_gt in E. lia.
Qed.

Lemma violated_min_max (len n m : nat) (msg1 msg2 : string) :
  is_Some (first_violation [(len <? n, msg1); (m <? len, msg2)])
  <-> (n <=? len) && (len <=? m) = false.
Proof.
  simpl. rewrite andb_false_iff, !Nat.leb_gt.
  destruct (Nat.ltb_spec len n) as [Hlt|Hge];
    [|destruct (Nat.ltb_spec m len) as [Hgt|Hle]].
  - split; [intros _; left; exact Hlt | intros _; eexists; reflexivity].
  - split; [intros _; right; exact Hgt | intros _; eexists; reflexivity].
  - split; [intros [x Hx]; discriminate Hx | lia].
Qed.

Lemma violated_not (b : bool) (msg : string) :
  is_Some (first_violation [(negb b, msg)]) <-> b = false.
Proof.
  destruct b; simpl.
  - split; [intros [x Hx]; discriminate Hx | discriminate].
  - split; [reflexivity | intros _; eexists; reflexivity].
Qed.

Lemma key_in_field_keys key :
  key ∈ field_keys
  <-> key = "name" ∨ key = "email" ∨ key = "phone"
      ∨ key = "car_make_model" ∨ key = "year" ∨ key = "mileage".
Proof.
  unfold field_keys. rewrite !elem_of_union, !elem_of_singleton. tauto.
Qed.

(** C1, as amended.  For every set of field values the error map has an
    entry exactly for the required fields whose trimmed value breaks the
    rule of the field (trimmed name of 2 to 100 code units, trimmed email
    matching the pattern, trimmed phone of at least 6, trimmed make and
    model of at least 2, trimmed year of at least 4, trimmed mileage not
    empty) and for no other key; the entry of a field is the message of
    the first rule it breaks, whatever the other fields are; and
    validation succeeds exactly when the map is empty. *)
Theorem validate_rules_on_trimmed_values (c : Copy) (fv : FormValues) :
  let errs := validate c fv in
  let t f := trim (f fv) in
  (forall key,
      is_Some (errs !! key)
      <-> key ∈ field_keys ∧ spec_rule key (trim (field_value key fv)) = false)
  ∧ (errs !! "name"
     = first_violation
         [(length (t name) <? 2, "Ime mora imati najmanje 2 znaka");
          (100 <? length (t name), "Ime može imati najviše 100 znakova")]
     ∧ errs !! "email"
       = first_violation
           [(negb (email_test (t email)), "Neispravna email adresa")]
     ∧ errs !! "phone"
       = first_violation
           [(length (t phone) <? 6,
             "Broj telefona mora imati najmanje 6 znamenki")]
     ∧ errs !! "car_make_model"
       = first_violation
           [(length (t car_make_model) <? 2, "Unesite marku i model")]
     ∧ errs !! "year"
       = first_violation
           [(length (t year) <? 4, "Unesite godinu (npr. 2020)")]
     ∧ errs !! "mileage"
       = first_violation [(length (t mileage) <? 1, "Unesite kilometražu")])
  ∧ is_valid c fv = bool_decide (errs = ∅).
Proof.
  intros errs t. subst errs t.
  split; [|split; [apply validate_messages | apply is_valid_no_errors]].
  destruct (validate_messages c fv) as (Hn & He & Hp & Hc & Hy & Hm).
  intros key. rewrite key_in_field_keys.
  destruct (decide (key = "name")) as [->|N1].
  { rewrite Hn, violated_min_max. change (spec_rule "name" ?v)
      with ((2 <=? length v) && (length v <=? 100)). tauto. }
  destruct (decide (key = "email")) as [->|N2].
  { rewrite He, violated_not. change (spec_rule "email" ?v) with (email_test v).
    change (field_value "email" fv) with (email fv). tauto. }
  destruct (decide (key = "phone")) as [->|N3].
  { rewrite Hp, violated_min. change (spec_rule "phone" ?v) with (6 <=? length v).
    change (field_value "phone" fv) with (phone fv). tauto. }
  destruct (decide (key = "car_make_model")) as [->|N4].
  { rewrite Hc, violated_min.
    change (spec_rule "car_make_model" ?v) with (2 <=? length v).
    change (field_value "car_make_model" fv) with (car_make_model fv). tauto. }
  destruct (decide (key = "year")) as [->|N5].
  { rewrite Hy, violated_min. change (spec_rule "year" ?v) with (4 <=? length v).
    change (field_value "year" fv) with (year fv). tauto. }
  destruct (decide (key = "mileage")) as [->|N6].
  { rewrite Hm, violated_min.
    change (spec_rule "mileage" ?v) with (negb (length v =? 0)).
    change (field_value "mileage" fv) with (mileage fv).
    destruct (length (trim (mileage fv))); simpl; tauto. }
  split; [|tauto].
  intros Hsome. apply elem_of_dom in Hsome. apply validate_dom in Hsome.
  apply key_in_field_keys in Hsome. tauto.
Qed.

End Validation.

(** C1, as the specification words it, fails: in [ana] with the phone set
    to five digits and a space, every field satisfies its rule on the value
    as entered (the phone has six characters), and yet validation reports
    the phone. *)
Lemma validate_rule_on_raw_value_fails :
  let fv := formValues_of (with_phone (of_ascii "12345 ") ana) in
  forallb (fun key => @spec_rule zod3_email key (field_value key fv))
          ["name"; "email"; "phone"; "car_make_model"; "year"; "mileage"]
  = true
  ∧ @validate zod3_email staged fv !! "phone"
    = Some "Broj telefona mora imati najmanje 6 znamenki".
Proof. split; vm_compute; reflexivity. Qed.

(** ** Staging and removing images *)

Section Attachments.
Context `{EmailRegex}.

Lemma filter_files_staged files st :
  Staged.filter_files files st
  = ({| isSubmitting := isSubmitting st; uploadedFiles := uploadedFiles st;
        errors := errors st; form := form st;
        toasts := toasts st ++ map too_large_toast (List.filter oversized files);
        console := console st; requests := requests st |},
     List.filter (fun f => negb (oversized f)) files).
Proof.
  revert st. induction files as [|file files IH]; intros st.
  - simpl. rewrite app_nil_r. destruct st; reflexivity.
  - cbn [Staged.filter_files List.filter map].
    change (10 * 1024 * 1024 <? file_size file)%N with (oversized file).
    destruct (oversized file); cbn [negb map]; rewrite IH; [|reflexivity].
    cbn [toasts toast isSubmitting uploadedFiles errors form console requests].
    rewrite <- app_assoc. reflexivity.
Qed.

Lemma filter_files_same files st :
  Inline.filter_files files st = Staged.filter_files files st.
Proof.
  revert st. induction files as [|file files IH]; intros st; simpl;
    [reflexivity|].
  rewrite !IH. reflexivity.
Qed.

Lemma filter_length {A} (f : A -> bool) (l : list A) :
  length (List.filter (fun x => negb (f x)) l)
  = length l - length (List.filter f l)
  ∧ length (List.filter f l) <= length l.
Proof.
  induction l as [|x l [IH1 IH2]]; simpl; [split; reflexivity|].
  destruct (f x); simpl; rewrite IH1; split; lia.
Qed.

Lemma on_file_change_state c target_files st :
  on_file_change (handlers c) target_files st
  = let files := match target_files with Some l => l | None => [] end in
    {| isSubmitting := isSubmitting st;
       uploadedFiles :=
         uploadedFiles st ++ List.filter (fun f => negb (oversized f)) files;
       errors := errors st; form := form st;
       toasts := toasts st ++ map too_large_toast (List.filter oversized files);
       console := console st; requests := requests st |}.
Proof.
  destruct c; simpl;
    unfold Staged.handleFileChange, Inline.handleFileChange;
    rewrite ?filter_files_same, filter_files_staged; reflexivity.
Qed.

Lemma filter_index_ne_out {A} (from : nat) (index : Z) (arr : list A) :
  (index < Z.of_nat from ∨ Z.of_nat (from + length arr) <= index)%Z ->
  filter_index_ne from index arr = arr.
Proof.
  revert from. induction arr as [|x arr IH]; intros from Hout; simpl;
    [reflexivity|].
  destruct (Z.eqb_spec (Z.of_nat from) index) as [E|_]; [simpl in Hout; lia|].
  rewrite IH; [reflexivity|]. simpl in Hout. lia.
Qed.

Lemma filter_index_ne_in {A} (from i : nat) (arr : list A) :
  i < length arr ->
  filter_index_ne from (Z.of_nat (from + i)) arr = take i arr ++ drop (S i) arr.
Proof.
  revert from i. induction arr as [|x arr IH]; intros from i Hi; simpl in Hi;
    [lia|]. simpl.
  destruct (Z.eqb_spec (Z.of_nat from) (Z.of_nat (from + i))) as [E|N].
  - assert (i = 0) as -> by lia. simpl. rewrite drop_0.
    apply filter_index_ne_out. lia.
  - destruct i as [|i]; [exfalso; apply N; f_equal; lia|].
    simpl. f_equal. replace (from + S i) with (S from + i) by lia.
    apply IH. lia.
Qed.

Lemma filter_index_ne_Forall {A} (P : A -> Prop) from index (arr : list A) :
  Forall P arr -> Forall P (filter_index_ne from index arr).
Proof.
  revert from. induction arr as [|x arr IH]; intros from Harr; simpl;
    [constructor|].
  apply Forall_cons_1 in Harr as [Hx Harr].
  destruct (Z.of_nat from =? index)%Z; [|constructor; [exact Hx|]];
    apply IH, Harr.
Qed.

Lemma on_remove_state c index st :
  on_remove (handlers c) index st
  = setUploadedFiles (fun prev => filter_index_ne 0 index prev) st.
Proof. destruct c; reflexivity. Qed.

End Attachments.

(** ** The submit handler, step by step *)

Section Handler.
Context `{EmailRegex}.

Lemma append_attachments_imap index files fd :
  Inline.append_attachments index files fd
  = {| controls := controls fd; hidden := hidden fd;
       appended := appended fd ++ imap (fun i file => (index + i, file)) files |}.
Proof.
  revert index fd. induction files as [|file files IH]; intros index fd; simpl.
  - rewrite app_nil_r. destruct fd; reflexivity.
  - rewrite IH. simpl. rewrite <- app_assoc. simpl. do 3 f_equal.
    + f_equal. lia.
    + apply imap_ext. intros i x _. simpl. f_equal. lia.
Qed.

(** What the first part of [handleSubmit] does when it is called by the
    dispatcher, with the form as [currentTarget]. *)
Lemma on_submit_live c st :
  on_submit (handlers c) {| currentTarget := Some contact_form |} st
  = if is_valid c (formValues_of (form st)) then
      ({| isSubmitting := true; uploadedFiles := uploadedFiles st;
          errors := ∅; form := form st; toasts := toasts st;
          console := console st;
          requests := requests st ++ [request_of c (form st) (uploadedFiles st)] |},
       Awaiting)
    else
      ({| isSubmitting := false; uploadedFiles := uploadedFiles st;
          errors := validate c (formValues_of (form st)); form := form st;
          toasts := toasts st ++ [form_error_toast];
          console := console st; requests := requests st |},
       Returned).
Proof.
  destruct c; simpl;
    unfold Staged.handleSubmit_start, Inline.handleSubmit_start,
      Staged.is_valid, Inline.is_valid, Staged.validate, Inline.validate;
    simpl; fold (formValues_of (form st));
    destruct (safeParse _ (formValues_of (form st))); try reflexivity.
  unfold fetch, request_of. simpl. rewrite append_attachments_imap. reflexivity.
Qed.

(** What the rest of [handleSubmit] shows to the user, by the outcome of
    the request and by what [currentTarget] is at that time. *)
Lemma on_settle_visible c e result st :
  visible (on_settle (handlers c) e result st)
  = if reports_success c result then
      match currentTarget e with
      | Some _ => (false, [], ∅, blank_form, toasts st ++ [sent_toast])
      | None =>
          (false, uploadedFiles st, errors st, form st,
           toasts st ++ [sent_toast; send_failed_toast])
      end
    else
      (false, uploadedFiles st, errors st, form st,
       toasts st ++ [send_failed_toast]).
Proof.
  destruct c, e as [[[]|]], result as [|[b [[|[] msg]|]]]; try destruct b;
    unfold visible; simpl;
    unfold Staged.handleSubmit_resume, Inline.handleSubmit_resume,
      try_catch_finally; cbn; rewrite <- ?app_assoc; reflexivity.
Qed.

Lemma on_settle_requests c e result st :
  requests (on_settle (handlers c) e result st) = requests st.
Proof.
  destruct c, e as [[[]|]], result as [|[b [[|[] msg]|]]]; try destruct b;
    reflexivity.
Qed.

(** What the first copy writes to the console; the second writes
    nothing. *)
Lemma on_settle_console e result st :
  console (Staged.handleSubmit_resume e result st)
  = console st ++
    match result with
    | Rejects => [NetworkError]
    | Resolves r =>
        match json r with
        | None => [SyntaxError]
        | Some JNull => [TypeError]
        | Some (JValue true _) =>
            match currentTarget e with Some _ => [] | None => [TypeError] end
        | Some (JValue false (Some m)) => [Error (Dyn m)]
        | Some (JValue false None) => [Error (Lit "Submission failed")]
        end
    end
  ∧ console (Inline.handleSubmit_resume e result st) = console st.
Proof.
  destruct e as [[[]|]], result as [|[b [[|[] [msg|]]|]]]; try destruct b;
    unfold Staged.handleSubmit_resume, Inline.handleSubmit_resume,
      try_catch_finally; cbn; rewrite ?app_nil_r; split; reflexivity.
Qed.

End Handler.

(** ** The page between two events *)

Section Pages.
Context `{EmailRegex}.

Lemma visible_inv st a b c d e :
  visible st = (a, b, c, d, e) ->
  isSubmitting st = a ∧ uploadedFiles st = b ∧ errors st = c ∧ form st = d
  ∧ toasts st = e.
Proof. unfold visible. intros E. injection E as -> -> -> -> ->. tauto. Qed.

Lemma run_snoc c p actions a :
  run c p (actions ++ [a]) = step c (run c p actions) a.
Proof. unfold run. rewrite fold_left_app. reflexivity. Qed.

(** A submit gesture on a page that is not submitting. *)
Lemma step_submit_idle c p :
  isSubmitting (ui p) = false ->
  step c p SubmitForm
  = if is_valid c (formValues_of (form (ui p))) then
      {| ui := {| isSubmitting := true; uploadedFiles := uploadedFiles (ui p);
                  errors := ∅; form := form (ui p); toasts := toasts (ui p);
                  console := console (ui p);
                  requests := requests (ui p)
                              ++ [request_of c (form (ui p)) (uploadedFiles (ui p))] |};
         awaiting := awaiting p ++ [stale_event] |}
    else
      {| ui := {| isSubmitting := false; uploadedFiles := uploadedFiles (ui p);
                  errors := validate c (formValues_of (form (ui p)));
                  form := form (ui p);
                  toasts := toasts (ui p) ++ [form_error_toast];
                  console := console (ui p); requests := requests (ui p) |};
         awaiting := awaiting p |}.
Proof.
  intros Hidle. simpl. rewrite Hidle. unfold dispatch_submit.
  rewrite on_submit_live.
  destruct (is_valid c (formValues_of (form (ui p)))); reflexivity.
Qed.

Lemma consistent_step c p a : consistent p -> consistent (step c p a).
Proof.
  intros (Haw & Hdom & Hfiles). destruct a as [f|files|index| |k result].
  - (* Edit *) split; [exact Haw|]. split; [exact Hdom | exact Hfiles].
  - (* ChooseFiles *)
    unfold consistent. simpl. rewrite on_file_change_state. simpl.
    split; [exact Haw|]. split; [exact Hdom|].
    apply Forall_app. split; [exact Hfiles|].
    apply List.Forall_forall. intros f Hf. apply filter_In in Hf as [_ Hf].
    apply negb_true_iff in Hf. exact Hf.
  - (* ClickRemove *)
    unfold consistent. simpl. rewrite on_remove_state. simpl.
    split; [exact Haw|]. split; [exact Hdom|].
    apply filter_index_ne_Forall, Hfiles.
  - (* SubmitForm *)
    destruct (isSubmitting (ui p)) eqn:Hsub.
    + simpl. rewrite Hsub. unfold consistent. rewrite Hsub. tauto.
    + rewrite step_submit_idle by exact Hsub. rewrite Haw.
      destruct (is_valid c (formValues_of (form (ui p)))); unfold consistent; simpl.
      * split; [reflexivity|]. split; [|exact Hfiles].
        rewrite dom_empty. apply empty_subseteq.
      * split; [reflexivity|]. split; [apply validate_dom | exact Hfiles].
  - (* FetchSettles *)
    simpl. rewrite Haw.
    destruct (isSubmitting (ui p)) eqn:Hsub;
      [destruct k as [|k]|]; simpl.
    + pose proof (on_settle_visible c stale_event result (ui p)) as V.
      simpl in V.
      destruct (reports_success c result);
        apply visible_inv in V as (V1 & V2 & V3 & V4 & V5);
        unfold consistent; simpl; rewrite V1, V2, V3; tauto.
    + unfold consistent. rewrite Hsub. tauto.
    + unfold consistent. rewrite Hsub. tauto.
Qed.

Lemma consistent_initial : consistent initial.
Proof.
  unfold consistent. simpl. split; [reflexivity|]. split; [|constructor].
  rewrite dom_empty. apply empty_subseteq.
Qed.

Lemma consistent_run c actions : consistent (run c initial actions).
Proof.
  induction actions as [|a actions IH] using rev_ind.
  - apply consistent_initial.
  - rewrite run_snoc. apply consistent_step, IH.
Qed.

End Pages.

(** ** Staging and removing, on the page *)

Section Staging.
Context `{EmailRegex}.

(** C5. For a list of selected files, the files that are not over 10MB
    are appended to the staged list in their order, after the files
    staged before, which stay as they were; no file over 10MB is among
    the appended ones, and none is ever staged on a page the component
    can reach; one notification is shown for each oversized file, naming
    it; so the staged list grows by N - K and the notifications by K, for
    N files of which K are oversized.  Nothing else changes. *)
Theorem handleFileChange_appends_accepted (c : Copy) (files : list File)
    (st : State) :
  let st' := on_file_change (handlers c) (Some files) st in
  let accepted := List.filter (fun f => negb (oversized f)) files in
  let rejected := List.filter oversized files in
  uploadedFiles st' = uploadedFiles st ++ accepted
  ∧ Forall (fun f => (file_size f <= 10 * 1024 * 1024)%N) accepted
  ∧ (forall actions,
       Forall (fun f => (file_size f <= 10 * 1024 * 1024)%N)
         (uploadedFiles (ui (run c initial actions))))
  ∧ toasts st' = toasts st ++ map too_large_toast rejected
  ∧ length (uploadedFiles st')
    = length (uploadedFiles st) + (length files - length rejected)
  ∧ length (toasts st') = length (toasts st) + length rejected
  ∧ (isSubmitting st', errors st', form st', console st', requests st')
    = (isSubmitting st, errors st, form st, console st, requests st).
Proof.
  intros st' accepted rejected. subst st'.
  rewrite on_file_change_state. simpl.
  split; [reflexivity|]. split; [|split; [|repeat split]].
  - apply List.Forall_forall. intros f Hf. apply filter_In in Hf as [_ Hf].
    unfold oversized, size_cap in Hf. apply negb_true_iff, N.ltb_ge in Hf.
    exact Hf.
  - intros actions. destruct (consistent_run c actions) as (_ & _ & Hfiles).
    eapply Forall_impl; [exact Hfiles|]. intros f Hf.
    unfold oversized, size_cap in Hf. apply N.ltb_ge in Hf. exact Hf.
  - rewrite length_app. f_equal. apply filter_length.
  - rewrite length_app, length_map. reflexivity.
Qed.

(** C6. Removing at [index] drops exactly the element at that position
    when there is one, the elements before and after it staying in their
    order; for any other index (negative, or past the end) the component
    is left as it was. *)
Theorem removeFile_removes_position (c : Copy) (index : Z) (st : State) :
  let st' := on_remove (handlers c) index st in
  let l := uploadedFiles st in
  (forall i : nat, index = Z.of_nat i -> i < length l ->
     uploadedFiles st' = take i l ++ drop (S i) l
     ∧ length (uploadedFiles st') = length l - 1)
  ∧ ((index < 0 ∨ Z.of_nat (length l) <= index)%Z -> st' = st)
  ∧ (isSubmitting st', errors st', form st', toasts st', console st',
     requests st')
    = (isSubmitting st, errors st, form st, toasts st, console st,
       requests st).
Proof.
  intros st' l. subst st'. rewrite on_remove_state.
  unfold setUploadedFiles. simpl. fold l.
  split; [|split; [|reflexivity]].
  - intros i -> Hi. pose proof (filter_index_ne_in 0 i l Hi) as R.
    simpl in R. rewrite R. split; [reflexivity|].
    rewrite length_app, length_take, length_drop. lia.
  - intros Hout. rewrite filter_index_ne_out by (simpl; lia).
    subst l. destruct st; reflexivity.
Qed.

End Staging.

(** ** Submission *)

Section Submission.
Context `{EmailRegex}.

(** The settling of the request of a suspended call whose event object
    is stale: whatever the outcome, the form and the staged files stay. *)
Lemma settle_stale c p k result :
  awaiting p !! k = Some stale_event ->
  let p' := step c p (FetchSettles k result) in
  awaiting p' = delete k (awaiting p)
  ∧ visible (ui p')
    = (false, uploadedFiles (ui p), errors (ui p), form (ui p),
       toasts (ui p)
       ++ if reports_success c result then [sent_toast; send_failed_toast]
          else [send_failed_toast]).
Proof.
  intros Hk. simpl. rewrite Hk. simpl. split; [reflexivity|].
  rewrite on_settle_visible. simpl.
  destruct (reports_success c result); reflexivity.
Qed.

Lemma submit_then_settle c p result :
  isSubmitting (ui p) = false ->
  is_valid c (formValues_of (form (ui p))) = true ->
  let p' := step c (step c p SubmitForm)
              (FetchSettles (length (awaiting p)) result) in
  awaiting p' = awaiting p
  ∧ visible (ui p')
    = (false, uploadedFiles (ui p), ∅, form (ui p),
       toasts (ui p)
       ++ if reports_success c result then [sent_toast; send_failed_toast]
          else [send_failed_toast]).
Proof.
  intros Hidle Hvalid. rewrite (step_submit_idle c p Hidle), Hvalid.
  set (q := {| ui := _; awaiting := awaiting p ++ [stale_event] |}).
  assert (Hk : awaiting q !! length (awaiting p) = Some stale_event).
  { subst q. simpl. rewrite lookup_app_r by lia.
    rewrite Nat.sub_diag. reflexivity. }
  destruct (settle_stale c q _ result Hk) as [Ha Hv].
  split; [|exact Hv].
  rewrite Ha. subst q. simpl.
  rewrite delete_middle. apply app_nil_r.
Qed.


(** C4. On every page the component can reach: at most one call of the
    submit handler is suspended, and one is exactly when the in-flight
    flag is set; while the flag is set, a submit gesture leaves the page
    as it is (no validation, no request, no change of state); a submit
    gesture on an idle page with invalid fields ends with the flag
    false, and with valid fields sends one request and suspends;
    whatever the awaited request settles with, the flag is false
    afterwards and nothing is suspended any more. *)
Theorem one_submission_in_flight (c : Copy) (actions : list Action) :
  let p := run c initial actions in
  length (awaiting p) <= 1
  ∧ (isSubmitting (ui p) = true <-> awaiting p ≠ [])
  ∧ (isSubmitting (ui p) = true -> step c p SubmitForm = p)
  ∧ (isSubmitting (ui p) = false ->
     let p' := step c p SubmitForm in
     if is_valid c (formValues_of (form (ui p)))
     then isSubmitting (ui p') = true ∧ length (awaiting p') = 1
          ∧ length (requests (ui p')) = S (length (requests (ui p)))
     else isSubmitting (ui p') = false ∧ awaiting p' = []
          ∧ requests (ui p') = requests (ui p))
  ∧ (forall k result,
       let p' := step c p (FetchSettles k result) in
       (p' = p ∨ isSubmitting (ui p') = false ∧ awaiting p' = [])
       ∧ requests (ui p') = requests (ui p))
  ∧ (forall result,
       isSubmitting (ui (step c p (FetchSettles 0 result))) = false).
Proof.
  intros p. destruct (consistent_run c actions) as (Haw & _ & _). fold p in Haw.
  destruct (isSubmitting (ui p)) eqn:Hsub.
  - (* a submission is in flight *)
    split; [rewrite Haw; simpl; lia|].
    split; [rewrite Haw; split; [discriminate | reflexivity]|].
    split; [intros _; simpl; rewrite Hsub; reflexivity|].
    split; [discriminate|].
    assert (Hsettle : forall result,
               let p' := step c p (FetchSettles 0 result) in
               isSubmitting (ui p') = false ∧ awaiting p' = []).
    { intros result.
      assert (Hk : awaiting p !! 0 = Some stale_event) by (rewrite Haw; reflexivity).
      destruct (settle_stale c p 0 result Hk) as [Ha Hv].
      apply visible_inv in Hv as (V1 & _). rewrite Haw in Ha.
      split; [exact V1 | exact Ha]. }
    split; [|intros result; apply Hsettle].
    intros k result. split.
    + destruct k as [|k]; [right; apply Hsettle|].
      left. simpl. rewrite Haw. reflexivity.
    + simpl. destruct (awaiting p !! k); [|reflexivity].
      apply on_settle_requests.
  - (* idle *)
    split; [rewrite Haw; simpl; lia|].
    split; [rewrite Haw; split; [discriminate | intros N; now contradiction N]|].
    split; [discriminate|].
    split.
    { intros _. rewrite (step_submit_idle c p Hsub), Haw.
      destruct (is_valid c (formValues_of (form (ui p)))); simpl.
      - split; [reflexivity|]. split; [reflexivity|].
        rewrite length_app. simpl. lia.
      - tauto. }
    split.
    + intros k result. simpl. rewrite Haw. simpl. split; [left|]; reflexivity.
    + intros result. simpl. rewrite Haw. simpl. exact Hsub.
Qed.

End Submission.

(** ** The error map and the purity of validation *)

Section Errors.
Context `{EmailRegex}.

(** The first statement of [handleSubmit] empties the error map, so the
    call does not depend on the errors it finds. *)
Lemma on_submit_clears_first c e st :
  on_submit (handlers c) e st = on_submit (handlers c) e (setErrors ∅ st).
Proof. destruct c; reflexivity. Qed.

(** C7. On every page the component can reach, the keys of the error map
    are among name, email, phone, car_make_model, year and mileage.  A
    submit attempt starts by emptying the map: it runs as it would on
    an empty map, and leaves the errors of the fields as they are now,
    none when they are valid.  An event leaves the map as it was or
    empty, unless it is a submit gesture on fields that do not validate,
    which fills it with their errors. *)
Theorem errors_only_for_fields (c : Copy) (actions : list Action) :
  let p := run c initial actions in
  dom (errors (ui p)) ⊆ field_keys
  ∧ (forall e st,
       on_submit (handlers c) e st = on_submit (handlers c) e (setErrors ∅ st))
  ∧ (isSubmitting (ui p) = false ->
     errors (ui (step c p SubmitForm))
     = validate c (formValues_of (form (ui p))))
  ∧ (forall a,
       let p' := step c p a in
       errors (ui p') = errors (ui p)
       ∨ errors (ui p') = ∅
       ∨ (a = SubmitForm
          ∧ is_valid c (formValues_of (form (ui p))) = false
          ∧ errors (ui p') = validate c (formValues_of (form (ui p)))
          ∧ errors (ui p') ≠ ∅)).
Proof.
  intros p. destruct (consistent_run c actions) as (_ & Hdom & _). fold p in Hdom.
  split; [exact Hdom|]. split; [apply on_submit_clears_first|].
  assert (Hsubmit : isSubmitting (ui p) = false ->
            errors (ui (step c p SubmitForm))
            = validate c (formValues_of (form (ui p)))).
  { intros Hidle. rewrite (step_submit_idle c p Hidle).
    destruct (is_valid c (formValues_of (form (ui p)))) eqn:Hv; [|reflexivity].
    simpl. rewrite is_valid_no_errors in Hv.
    apply bool_decide_eq_true in Hv. symmetry. exact Hv. }
  split; [exact Hsubmit|].
  intros [f|files|index| |k result] p'; subst p'.
  - left. reflexivity.
  - left. simpl. rewrite on_file_change_state. reflexivity.
  - left. simpl. rewrite on_remove_state. reflexivity.
  - destruct (isSubmitting (ui p)) eqn:Hsub.
    + left. simpl. rewrite Hsub. reflexivity.
    + rewrite (Hsubmit eq_refl).
      destruct (is_valid c (formValues_of (form (ui p)))) eqn:Hv.
      * right. left. rewrite is_valid_no_errors in Hv.
        apply bool_decide_eq_true in Hv. exact Hv.
      * right. right. repeat split.
        rewrite is_valid_no_errors in Hv.
        apply bool_decide_eq_false in Hv. exact Hv.
  - simpl. destruct (awaiting p !! k) as [e|]; [|left; reflexivity]. simpl.
    pose proof (on_settle_visible c e result (ui p)) as V.
    destruct (reports_success c result); [destruct (currentTarget e)|];
      apply visible_inv in V as (_ & _ & V3 & _); rewrite V3; tauto.
Qed.

(** C8. Validation is a function of the six required fields and leaves
    them as they are: the first part of the submit handler does not
    change the form; the errors it leaves are those of the required
    fields it found, whatever the rest of the state is, so two states
    with the same required fields get the same errors; and a second run
    on the state the first run left gives the same errors again. *)
Theorem validation_is_pure (c : Copy) (st : State) :
  let live := {| currentTarget := Some contact_form |} in
  let st' := (on_submit (handlers c) live st).1 in
  form st' = form st
  ∧ errors st' = validate c (formValues_of (form st))
  ∧ (forall st2,
       formValues_of (form st2) = formValues_of (form st) ->
       errors (on_submit (handlers c) live st2).1 = errors st')
  ∧ errors (on_submit (handlers c) live st').1 = errors st'.
Proof.
  intros live st'.
  assert (G : forall s,
             form (on_submit (handlers c) live s).1 = form s
             ∧ errors (on_submit (handlers c) live s).1
               = validate c (formValues_of (form s))).
  { intros s. subst live. rewrite on_submit_live.
    destruct (is_valid c (formValues_of (form s))) eqn:Hv; simpl;
      split; try reflexivity.
    rewrite is_valid_no_errors in Hv. apply bool_decide_eq_true in Hv.
    symmetry. exact Hv. }
  destruct (G st) as [Gf Ge]. fold st' in Gf, Ge.
  split; [exact Gf|]. split; [exact Ge|]. split.
  - intros st2 E. rewrite (proj2 (G st2)), E, Ge. reflexivity.
  - rewrite (proj2 (G st')), Gf, Ge. reflexivity.
Qed.

End Errors.

(** ** A submission that the endpoint accepts *)

Section Accepted.
Context `{EmailRegex}.

(** Had the event object still pointed to the form, the success branch
    would reset the form, empty the staged files and the error map. *)
Lemma accepted_with_live_target c result st :
  reports_success c result = true ->
  visible (on_settle (handlers c) {| currentTarget := Some contact_form |} result st)
  = (false, [], ∅, blank_form, toasts st ++ [sent_toast]).
Proof. intros Hok. rewrite on_settle_visible, Hok. reflexivity. Qed.

(** On the page, the rest of the handler runs after the dispatch of the
    submit event is over: [e.currentTarget] is null, [reset()] throws in
    the [try], the two statements after it are skipped and the [catch]
    shows the failure notification after the success notification. *)
Lemma accepted_on_page c p result :
  isSubmitting (ui p) = false ->
  is_valid c (formValues_of (form (ui p))) = true ->
  reports_success c result = true ->
  let p' := step c (step c p SubmitForm)
              (FetchSettles (length (awaiting p)) result) in
  form (ui p') = form (ui p)
  ∧ uploadedFiles (ui p') = uploadedFiles (ui p)
  ∧ errors (ui p') = ∅
  ∧ isSubmitting (ui p') = false
  ∧ toasts (ui p') = toasts (ui p) ++ [sent_toast; send_failed_toast].
Proof.
  intros Hidle Hvalid Hok p'.
  destruct (submit_then_settle c p result Hidle Hvalid) as [_ Hv].
  fold p' in Hv. rewrite Hok in Hv.
  apply visible_inv in Hv as (V1 & V2 & V3 & V4 & V5). tauto.
Qed.

End Accepted.

(** C2, on the code.  The fields of [ana] are valid and the endpoint
    answers 200 with [success: true], which both copies take for success;
    after the submission the form still holds the values of [ana], the
    staged image is still staged, and the failure notification follows
    the success notification.  Only the error map is empty. *)
Theorem accepted_submission_clears_nothing :
  let p c := @run zod3_email c initial [Edit ana; ChooseFiles (Some [photo9])] in
  let p' c :=
    @step zod3_email c (@step zod3_email c (p c) SubmitForm)
      (FetchSettles 0 accepted_200) in
  (@is_valid zod3_email staged (formValues_of ana) = true
   ∧ reports_success staged accepted_200 = true
   ∧ form (ui (p' staged)) = ana
   ∧ uploadedFiles (ui (p' staged)) = [photo9]
   ∧ errors (ui (p' staged)) = ∅
   ∧ toasts (ui (p' staged)) = [sent_toast; send_failed_toast]
   ∧ console (ui (p' staged)) = [TypeError])
  ∧ (@is_valid zod3_email inline (formValues_of ana) = true
     ∧ reports_success inline accepted_200 = true
     ∧ form (ui (p' inline)) = ana
     ∧ uploadedFiles (ui (p' inline)) = [photo9]
     ∧ errors (ui (p' inline)) = ∅
     ∧ toasts (ui (p' inline)) = [sent_toast; send_failed_toast]).
Proof. repeat split; vm_compute; reflexivity. Qed.


(** What a copy reads as a failure is a failure in the words of the
    specification. *)
Lemma copy_failure_is_spec_failure (c : Copy) (result : FetchResult) :
  reports_success c result = false -> spec_failure result = true.
Proof.
  destruct c, result as [|[[] [[|[] msg]|]]]; simpl; intros Hfail;
    try reflexivity; discriminate Hfail.
Qed.


(** ** The two copies side by side *)

Section Copies.
Context `{EmailRegex}.

Lemma validate_same c fv : validate c fv = Staged.validate fv.
Proof. destruct c; reflexivity. Qed.

Lemma is_valid_same c fv : is_valid c fv = Staged.is_valid fv.
Proof. destruct c; reflexivity. Qed.

Lemma visible_eq st1 st2 :
  visible st1 = visible st2
  <-> isSubmitting st1 = isSubmitting st2
      ∧ uploadedFiles st1 = uploadedFiles st2
      ∧ errors st1 = errors st2 ∧ form st1 = form st2
      ∧ toasts st1 = toasts st2.
Proof.
  unfold visible. split.
  - intros E. injection E as -> -> -> -> ->. tauto.
  - intros (-> & -> & -> & -> & ->). reflexivity.
Qed.

(** One event keeps the two copies in step, as long as they read the
    outcome of the request alike. *)
Lemma copies_step p q a :
  visible (ui p) = visible (ui q) -> awaiting p = awaiting q ->
  indicators_agree a ->
  visible (ui (step staged p a)) = visible (ui (step inline q a))
  ∧ awaiting (step staged p a) = awaiting (step inline q a).
Proof.
  intros Hv Ha Hagree. pose proof Hv as Hv'.
  apply visible_eq in Hv' as (E1 & E2 & E3 & E4 & E5).
  remember staged as c1 eqn:Hc1. remember inline as c2 eqn:Hc2.
  destruct a as [f|files|index| |k result].
  - split; [|exact Ha]. apply visible_eq. simpl. tauto.
  - split; [|exact Ha]. simpl. rewrite !on_file_change_state.
    apply visible_eq. simpl. rewrite E1, E2, E3, E4, E5. tauto.
  - split; [|exact Ha]. simpl. rewrite !on_remove_state.
    apply visible_eq. simpl. rewrite E1, E2, E3, E4, E5. tauto.
  - destruct (isSubmitting (ui p)) eqn:Hsub.
    + simpl. rewrite <- E1, Hsub. split; [exact Hv | exact Ha].
    + rewrite (step_submit_idle c1 p Hsub).
      rewrite (step_submit_idle c2 q) by (symmetry; exact E1).
      rewrite !is_valid_same, !validate_same, <- E4, <- Ha.
      destruct (Staged.is_valid (formValues_of (form (ui p)))); simpl;
        (split; [|reflexivity]); apply visible_eq; simpl;
        rewrite ?E2, ?E5; tauto.
  - simpl. rewrite <- Ha. destruct (awaiting p !! k) as [e|]; simpl;
      [|split; [exact Hv | exact Ha]].
    split; [|reflexivity].
    rewrite !on_settle_visible, E2, E3, E4, E5. subst c1 c2.
    destruct result as [|[b [[|success msg]|]]]; simpl in *;
      try reflexivity; rewrite Hagree; reflexivity.
Qed.

(** C9, as amended.  The two copies declare the same schema and compute
    the same errors; they stage and remove images alike; the first part
    of their submit handlers suspends or returns alike and leaves the
    same visible state, the requests differing in the hidden inputs and
    in the attachments that only the second copy appends; the rest of
    their handlers leave the same visible state whenever the two copies
    read the same outcome, the first on the [success] property of the
    JSON body, the second on the HTTP status; and so the two copies stay
    in step along every run of events all of whose responses have body
    and status in agreement. *)
Theorem copies_agree_on_agreeing_responses :
  Inline.contactSchema = Staged.contactSchema
  ∧ (forall fv, Inline.validate fv = Staged.validate fv)
  ∧ (forall files st,
       Inline.handleFileChange files st = Staged.handleFileChange files st)
  ∧ (forall index st, Inline.removeFile index st = Staged.removeFile index st)
  ∧ (forall e st,
       (Inline.handleSubmit_start e st).2 = (Staged.handleSubmit_start e st).2
       ∧ visible (Inline.handleSubmit_start e st).1
         = visible (Staged.handleSubmit_start e st).1
       ∧ map url (requests (Inline.handleSubmit_start e st).1)
         = map url (requests (Staged.handleSubmit_start e st).1)
       ∧ map method (requests (Inline.handleSubmit_start e st).1)
         = map method (requests (Staged.handleSubmit_start e st).1)
       ∧ map (fun r => controls (body r))
           (requests (Inline.handleSubmit_start e st).1)
         = map (fun r => controls (body r))
             (requests (Staged.handleSubmit_start e st).1))
  ∧ (forall e result st,
       reports_success inline result = reports_success staged result ->
       visible (Inline.handleSubmit_resume e result st)
       = visible (Staged.handleSubmit_resume e result st))
  ∧ (forall actions,
       Forall indicators_agree actions ->
       visible (ui (run staged initial actions))
       = visible (ui (run inline initial actions))
       ∧ awaiting (run staged initial actions)
         = awaiting (run inline initial actions)).
Proof.
  split; [reflexivity|]. split; [reflexivity|].
  split.
  { intros files st. unfold Inline.handleFileChange, Staged.handleFileChange.
    rewrite filter_files_same. reflexivity. }
  split; [reflexivity|].
  split.
  { intros [[[]|]] st; simpl.
    - unfold Inline.handleSubmit_start, Staged.handleSubmit_start. simpl.
      change Inline.contactSchema with Staged.contactSchema.
      destruct (safeParse Staged.contactSchema _); simpl;
        [|repeat split; reflexivity].
      repeat split; rewrite !map_app, ?append_attachments_imap; reflexivity.
    - repeat split; reflexivity. }
  split.
  { intros e result st Hsame.
    change (Inline.handleSubmit_resume e result st)
      with (on_settle (handlers inline) e result st).
    change (Staged.handleSubmit_resume e result st)
      with (on_settle (handlers staged) e result st).
    rewrite !on_settle_visible, Hsame. reflexivity. }
  intros actions. induction actions as [|a actions IH] using rev_ind.
  - intros _. split; reflexivity.
  - intros Hall. apply Forall_app in Hall as [Hall Ha].
    apply Forall_cons_1 in Ha as [Ha _].
    destruct (IH Hall) as [IHv IHa]. rewrite !run_snoc.
    apply copies_step; assumption.
Qed.

End Copies.

(** C9, as the specification words it, fails.  The endpoint answers 200
    with [success: false] to a valid submission: the first copy reads the
    body and shows the failure notification alone, the second reads the
    status and shows the success notification first. *)
Lemma copies_disagree_on_refused_200 :
  let events := [Edit ana; SubmitForm; FetchSettles 0 refused_200] in
  toasts (ui (@run zod3_email staged initial events)) = [send_failed_toast]
  ∧ toasts (ui (@run zod3_email inline initial events)) !! 0 = Some sent_toast.
Proof. split; vm_compute; reflexivity. Qed.

(** ** The scenarios of the specification *)

(** The fields of [ana] validate; with the email replaced by
    [not-an-email] the only error is the one of the email. *)
Example scenario_ana :
  @validate zod3_email staged (formValues_of ana) = ∅
  ∧ @validate zod3_email staged
      (formValues_of (with_email (of_ascii "not-an-email") ana))
    = {[ "email" := "Neispravna email adresa" ]}.
Proof. split; vm_compute; reflexivity. Qed.

(** Of an image of 11MB and one of 9MB only the second is staged, and the
    first is announced. *)
Example scenario_two_images :
  let p := @run zod3_email staged initial [ChooseFiles (Some [photo11; photo9])] in
  uploadedFiles (ui p) = [photo9] ∧ toasts (ui p) = [too_large_toast photo11].
Proof. split; vm_compute; reflexivity. Qed.

(** An image of exactly 10MB is staged; removing position 0 of two staged
    images leaves the second, removing position 2 leaves both. *)
Example scenario_remove :
  let exact := {| file_name := of_ascii "a.png"; file_size := 10 * MB |} in
  let p := @run zod3_email inline initial [ChooseFiles (Some [exact; photo9])] in
  uploadedFiles (ui p) = [exact; photo9]
  ∧ uploadedFiles (ui (@step zod3_email inline p (ClickRemove 0))) = [photo9]
  ∧ uploadedFiles (ui (@step zod3_email inline p (ClickRemove 2))) = [exact; photo9]
  ∧ uploadedFiles (ui (@step zod3_email inline p (ClickRemove (-1)))) = [exact; photo9].
Proof. repeat split; vm_compute; reflexivity. Qed.

(** * Further properties of the handlers *)

(** ** Validation and white space *)

Section Blank.
Context `{EmailRegex}.

Lemma trimStart_blank s : blank s = true -> trimStart s = [].
Proof.
  unfold blank. induction s as [|ch s IH]; simpl; [reflexivity|].
  intros Hs. apply andb_true_iff in Hs as [Hc Hs]. rewrite Hc. apply IH, Hs.
Qed.

Lemma trim_blank s : blank s = true -> trim s = [].
Proof. intros Hs. unfold trim. rewrite (trimStart_blank s Hs). reflexivity. Qed.

(** X1. Validation does not see the white space around a value: the six
    values and their trimmed forms get the same error map and the same
    verdict, the email included. *)
Theorem validate_ignores_outer_space (c : Copy) (fv : FormValues) :
  validate c (trim_values fv) = validate c fv
  ∧ is_valid c (trim_values fv) = is_valid c fv.
Proof.
  rewrite !validate_issues, !is_valid_issues, contactSchema_same.
  cbn -[trim Nat.ltb Staged.collect_errors].
  rewrite !trim_idempotent. split; reflexivity.
Qed.

(** X2. A name, phone, make and model, year or mileage that is empty or made
    of white space only is reported with the message of its minimum
    length, and the form does not validate. *)
Theorem blank_field_is_reported (c : Copy) (fv : FormValues) (key : string) :
  key ∈ ["name"; "phone"; "car_make_model"; "year"; "mileage"] ->
  blank (field_value key fv) = true ->
  validate c fv !! key
  = Some (if decide (key = "name") then "Ime mora imati najmanje 2 znaka"
          else if decide (key = "phone")
               then "Broj telefona mora imati najmanje 6 znamenki"
          else if decide (key = "car_make_model") then "Unesite marku i model"
          else if decide (key = "year") then "Unesite godinu (npr. 2020)"
          else "Unesite kilometražu")
  ∧ is_valid c fv = false.
Proof.
  intros Hkey Hblank.
  destruct (validate_messages c fv) as (Hn & _ & Hp & Hc & Hy & Hm).
  assert (G : forall m, validate c fv !! key = Some m ->
                validate c fv !! key = Some m ∧ is_valid c fv = false).
  { intros m Hm'. split; [exact Hm'|]. rewrite is_valid_no_errors.
    apply bool_decide_eq_false. intros E. rewrite E, lookup_empty in Hm'.
    discriminate Hm'. }
  apply elem_of_cons in Hkey as [->|Hkey].
  { apply G. rewrite Hn. change (field_value "name" fv) with (name fv) in Hblank.
    rewrite (trim_blank _ Hblank). reflexivity. }
  apply elem_of_cons in Hkey as [->|Hkey].
  { apply G. rewrite Hp. change (field_value "phone" fv) with (phone fv) in Hblank.
    rewrite (trim_blank _ Hblank). reflexivity. }
  apply elem_of_cons in Hkey as [->|Hkey].
  { apply G. rewrite Hc.
    change (field_value "car_make_model" fv) with (car_make_model fv) in Hblank.
    rewrite (trim_blank _ Hblank). reflexivity. }
  apply elem_of_cons in Hkey as [->|Hkey].
  { apply G. rewrite Hy. change (field_value "year" fv) with (year fv) in Hblank.
    rewrite (trim_blank _ Hblank). reflexivity. }
  apply elem_of_cons in Hkey as [->|Hkey]; [|inversion Hkey].
  apply G. rewrite Hm. change (field_value "mileage" fv) with (mileage fv) in Hblank.
  rewrite (trim_blank _ Hblank). reflexivity.
Qed.

End Blank.

Lemma blank_field_is_reported_witness :
  let fv := formValues_of (with_phone (of_ascii "   ") ana) in
  @validate zod3_email staged fv !! "phone"
  = Some "Broj telefona mora imati najmanje 6 znamenki"
  ∧ @is_valid zod3_email staged fv = false.
Proof.
  apply (@blank_field_is_reported zod3_email staged
           (formValues_of (with_phone (of_ascii "   ") ana)) "phone").
  - apply list_elem_of_further, list_elem_of_here.
  - vm_compute. reflexivity.
Defined.

(** ** Staging and removing compose *)

Section Compose.
Context `{EmailRegex}.

(** X3. Two selections one after the other stage and announce what one
    selection of both lists would; a selection of no file, or a file input
    without a list, changes nothing. *)
Theorem file_selections_compose (c : Copy) (xs ys : list File) (st : State) :
  on_file_change (handlers c) (Some ys) (on_file_change (handlers c) (Some xs) st)
  = on_file_change (handlers c) (Some (xs ++ ys)) st
  ∧ on_file_change (handlers c) (Some []) st = st
  ∧ on_file_change (handlers c) None st = st.
Proof.
  rewrite !on_file_change_state. simpl.
  rewrite !List.filter_app, !map_app, !app_assoc, !app_nil_r.
  split; [reflexivity|]. destruct st; split; reflexivity.
Qed.

(** X4. Staging one file that is within the cap and then removing the last
    position gives the state back. *)
Theorem stage_then_remove_last (c : Copy) (file : File) (st : State) :
  oversized file = false ->
  on_remove (handlers c) (Z.of_nat (length (uploadedFiles st)))
    (on_file_change (handlers c) (Some [file]) st)
  = st.
Proof.
  intros Hfile. rewrite on_file_change_state, on_remove_state. simpl.
  rewrite Hfile. simpl. unfold setUploadedFiles. simpl.
  pose proof (filter_index_ne_in 0 (length (uploadedFiles st))
                (uploadedFiles st ++ [file])) as R.
  simpl in R. rewrite R by (rewrite length_app; simpl; lia).
  rewrite take_app_length.
  rewrite (drop_ge (uploadedFiles st ++ [file]))
    by (rewrite length_app; simpl; lia).
  rewrite !app_nil_r. destruct st; reflexivity.
Qed.

Lemma filter_index_ne_shift {A} (from : nat) (index : Z) (arr : list A) :
  filter_index_ne (S from) (index + 1) arr = filter_index_ne from index arr.
Proof.
  revert from. induction arr as [|x arr IH]; intros from;
    cbn [filter_index_ne]; [reflexivity|].
  rewrite IH.
  destruct (Z.eqb_spec (Z.of_nat (S from)) (index + 1)) as [E|N];
    destruct (Z.eqb_spec (Z.of_nat from) index) as [E'|N'];
    try reflexivity; lia.
Qed.

Lemma filter_index_ne_swap {A} (from : nat) (i j : Z) (arr : list A) :
  (Z.of_nat from <= i <= j)%Z ->
  filter_index_ne from i (filter_index_ne from (j + 1) arr)
  = filter_index_ne from j (filter_index_ne from i arr).
Proof.
  revert from. induction arr as [|x arr IH]; intros from Hij;
    cbn [filter_index_ne]; [reflexivity|].
  destruct (Z.eqb_spec (Z.of_nat from) (j + 1)) as [E|_]; [lia|].
  destruct (Z.eqb_spec (Z.of_nat from) i) as [Ei|Ni]; cbn [filter_index_ne].
  - destruct (Z.eqb_spec (Z.of_nat from) i) as [_|N]; [|contradiction].
    rewrite !(filter_index_ne_out (S from) i) by lia.
    apply filter_index_ne_shift.
  - destruct (Z.eqb_spec (Z.of_nat from) i) as [E|_]; [contradiction|].
    destruct (Z.eqb_spec (Z.of_nat from) j) as [E|_]; [lia|].
    f_equal. apply IH. lia.
Qed.

(** X5. Two removals can be done in either order, the higher position counted
    one further when it is removed first. *)
Theorem removals_commute (c : Copy) (i j : Z) (st : State) :
  (0 <= i <= j)%Z ->
  on_remove (handlers c) i (on_remove (handlers c) (j + 1) st)
  = on_remove (handlers c) j (on_remove (handlers c) i st).
Proof.
  intros Hij. rewrite !on_remove_state. unfold setUploadedFiles. simpl.
  rewrite (filter_index_ne_swap 0 i j) by (simpl; lia). reflexivity.
Qed.

End Compose.

Lemma stage_then_remove_last_witness :
  let st := ui (@run zod3_email staged initial [ChooseFiles (Some [photo9])]) in
  on_remove (@handlers zod3_email staged) (Z.of_nat (length (uploadedFiles st)))
    (on_file_change (@handlers zod3_email staged) (Some [photo9]) st)
  = st.
Proof.
  apply (@stage_then_remove_last zod3_email staged photo9). vm_compute. reflexivity.
Defined.

Lemma removals_commute_witness :
  let st := ui (@run zod3_email inline initial
                  [ChooseFiles (Some [photo9; photo9; photo9])]) in
  on_remove (@handlers zod3_email inline) 0
    (on_remove (@handlers zod3_email inline) (1 + 1) st)
  = on_remove (@handlers zod3_email inline) 1
      (on_remove (@handlers zod3_email inline) 0 st).
Proof. apply (@removals_commute zod3_email inline 0 1). lia. Defined.

(** ** The requests that are sent *)

Section Requests.
Context `{EmailRegex}.

(** The requests after an event: one more after a submit gesture on an
    idle page whose fields validate, the same otherwise. *)
Lemma step_requests c p a :
  requests (ui (step c p a))
  = requests (ui p)
    ++ match a with
       | SubmitForm =>
           if negb (isSubmitting (ui p))
              && is_valid c (formValues_of (form (ui p)))
           then [request_of c (form (ui p)) (uploadedFiles (ui p))]
           else []
       | _ => []
       end.
Proof.
  destruct a as [f|files|index| |k result].
  - simpl. rewrite app_nil_r. reflexivity.
  - simpl. rewrite on_file_change_state, app_nil_r. reflexivity.
  - simpl. rewrite on_remove_state, app_nil_r. reflexivity.
  - destruct (isSubmitting (ui p)) eqn:Hsub.
    + simpl. rewrite Hsub, app_nil_r. reflexivity.
    + rewrite (step_submit_idle c p Hsub).
      destruct (is_valid c (formValues_of (form (ui p)))); simpl;
        rewrite ?app_nil_r; reflexivity.
  - simpl. rewrite app_nil_r. destruct (awaiting p !! k); [|reflexivity].
    apply on_settle_requests.
Qed.

Lemma imap_pair_fst {A} (k : nat) (l : list A) :
  map fst (imap (fun i x => (k + i, x)) l) = seq k (length l).
Proof.
  revert k. induction l as [|x l IH]; intros k; simpl; [reflexivity|].
  f_equal; [lia|]. rewrite <- (IH (S k)). f_equal.
  apply imap_ext. intros i y _. simpl. f_equal. lia.
Qed.

Lemma imap_pair_snd {A} (k : nat) (l : list A) :
  map snd (imap (fun i x => (k + i, x)) l) = l.
Proof.
  revert k. induction l as [|x l IH]; intros k; simpl; [reflexivity|].
  f_equal. rewrite <- (IH (S k)) at 2. f_equal.
  apply imap_ext. intros i y _. simpl. f_equal. lia.
Qed.

(** X6. Every request the component ever sends is a POST to the endpoint of
    the form service, with the hidden inputs of the copy, and carries
    fields that validate: no form that fails validation reaches the
    endpoint. *)
Theorem only_valid_forms_are_sent (c : Copy) (actions : list Action) :
  Forall (fun r =>
            url r = "https://api.web3forms.com/submit"
            ∧ method r = "POST"
            ∧ hidden (body r)
              = match c with
                | staged => Staged.hidden_inputs
                | inline => Inline.hidden_inputs
                end
            ∧ is_valid c (formValues_of (controls (body r))) = true)
         (requests (ui (run c initial actions))).
Proof.
  induction actions as [|a actions IH] using rev_ind; [constructor|].
  rewrite run_snoc, step_requests. apply Forall_app. split; [exact IH|].
  destruct a; try constructor.
  destruct (negb _ && _) eqn:E; constructor; [|constructor].
  apply andb_true_iff in E as [_ E]. destruct c; repeat split; exact E.
Qed.

(** X7. The first copy never puts a file in a request.  In the second copy
    the attachments of every request are numbered from 0 without a gap
    and none of them is over 10MB. *)
Theorem attachments_of_requests (c : Copy) (actions : list Action) :
  Forall (fun r =>
            match c with
            | staged => appended (body r) = []
            | inline =>
                map fst (appended (body r)) = seq 0 (length (appended (body r)))
                ∧ Forall (fun f => (file_size f <= 10 * 1024 * 1024)%N)
                         (map snd (appended (body r)))
            end)
         (requests (ui (run c initial actions))).
Proof.
  induction actions as [|a actions IH] using rev_ind; [constructor|].
  rewrite run_snoc, step_requests. apply Forall_app. split; [exact IH|].
  destruct a; try constructor.
  destruct (negb _ && _) eqn:E; constructor; [|constructor].
  destruct c; simpl; [reflexivity|].
  rewrite (imap_pair_fst 0), (imap_pair_snd 0), length_imap.
  split; [reflexivity|].
  destruct (consistent_run inline actions) as (_ & _ & Hfiles).
  eapply Forall_impl; [exact Hfiles|]. intros f Hf.
  unfold oversized, size_cap in Hf. apply N.ltb_ge in Hf. exact Hf.
Qed.

(** X8. A submit gesture on an idle page whose fields validate sends one
    request and shows nothing yet.  The request carries the controls as
    the user entered them, white space included, although validation
    judged the trimmed values; in the second copy it carries the staged
    files in their order as attachments 0, 1, ..., in the first copy no
    file. *)
Theorem valid_submit_sends_what_was_entered (c : Copy) (p : Page) :
  isSubmitting (ui p) = false ->
  is_valid c (formValues_of (form (ui p))) = true ->
  let p' := step c p SubmitForm in
  exists r,
    requests (ui p') = requests (ui p) ++ [r]
    ∧ controls (body r) = form (ui p)
    ∧ match c with
      | staged => appended (body r) = []
      | inline =>
          map snd (appended (body r)) = uploadedFiles (ui p)
          ∧ map fst (appended (body r)) = seq 0 (length (uploadedFiles (ui p)))
      end
    ∧ toasts (ui p') = toasts (ui p)
    ∧ form (ui p') = form (ui p)
    ∧ uploadedFiles (ui p') = uploadedFiles (ui p).
Proof.
  intros Hidle Hvalid p'. subst p'.
  exists (request_of c (form (ui p)) (uploadedFiles (ui p))).
  rewrite (step_submit_idle c p Hidle), Hvalid. simpl.
  split; [reflexivity|]. split; [destruct c; reflexivity|].
  split; [|repeat split].
  destruct c; simpl; [reflexivity|].
  rewrite (imap_pair_fst 0), (imap_pair_snd 0). split; reflexivity.
Qed.

(** X9. After a submission that failed, the page is idle again and a second
    submit gesture sends the same request once more. *)
Theorem failed_submission_can_be_retried (c : Copy) (p : Page)
    (result : FetchResult) :
  isSubmitting (ui p) = false ->
  is_valid c (formValues_of (form (ui p))) = true ->
  reports_success c result = false ->
  let r := request_of c (form (ui p)) (uploadedFiles (ui p)) in
  let p2 := step c (step c p SubmitForm)
              (FetchSettles (length (awaiting p)) result) in
  let p3 := step c p2 SubmitForm in
  requests (ui p2) = requests (ui p) ++ [r]
  ∧ requests (ui p3) = requests (ui p) ++ [r; r]
  ∧ isSubmitting (ui p3) = true.
Proof.
  intros Hidle Hvalid Hfail r p2 p3.
  destruct (submit_then_settle c p result Hidle Hvalid) as [Ha Hv].
  fold p2 in Ha, Hv. apply visible_inv in Hv as (V1 & V2 & V3 & V4 & V5).
  assert (R2 : requests (ui p2) = requests (ui p) ++ [r]).
  { subst p2. rewrite !step_requests, Hidle, Hvalid. simpl.
    rewrite app_nil_r. reflexivity. }
  split; [exact R2|]. subst p3.
  rewrite step_requests, (step_submit_idle c p2 V1), R2, V1, V2, V4, Hvalid.
  simpl. rewrite <- app_assoc. split; reflexivity.
Qed.

End Requests.

Lemma valid_submit_sends_what_was_entered_witness :
  let p := @run zod3_email inline initial
             [Edit (with_phone (of_ascii " 0991234567 ") ana);
              ChooseFiles (Some [photo9])] in
  let p' := @step zod3_email inline p SubmitForm in
  exists r,
    requests (ui p') = requests (ui p) ++ [r]
    ∧ controls (body r) = form (ui p)
    ∧ (map snd (appended (body r)) = uploadedFiles (ui p)
       ∧ map fst (appended (body r)) = seq 0 (length (uploadedFiles (ui p))))
    ∧ toasts (ui p') = toasts (ui p)
    ∧ form (ui p') = form (ui p)
    ∧ uploadedFiles (ui p') = uploadedFiles (ui p).
Proof.
  apply (@valid_submit_sends_what_was_entered zod3_email inline
           (@run zod3_email inline initial
              [Edit (with_phone (of_ascii " 0991234567 ") ana);
               ChooseFiles (Some [photo9])]));
    vm_compute; reflexivity.
Defined.

Lemma failed_submission_can_be_retried_witness :
  let p := @run zod3_email staged initial [Edit ana] in
  let r := request_of staged (form (ui p)) (uploadedFiles (ui p)) in
  let p2 := @step zod3_email staged (@step zod3_email staged p SubmitForm)
              (FetchSettles (length (awaiting p)) Rejects) in
  let p3 := @step zod3_email staged p2 SubmitForm in
  requests (ui p2) = requests (ui p) ++ [r]
  ∧ requests (ui p3) = requests (ui p) ++ [r; r]
  ∧ isSubmitting (ui p3) = true.
Proof.
  apply (@failed_submission_can_be_retried zod3_email staged
           (@run zod3_email staged initial [Edit ana]) Rejects);
    vm_compute; reflexivity.
Defined.

(** ** What the handlers leave alone *)

Section Untouched.
Context `{EmailRegex}.

(** The visible state after the settling of a request on a page the
    component can reach. *)
Lemma settle_on_consistent c p k result :
  consistent p ->
  step c p (FetchSettles k result) = p
  ∨ (k = 0 ∧ isSubmitting (ui p) = true
     ∧ ui (step c p (FetchSettles k result))
       = on_settle (handlers c) stale_event result (ui p)
     ∧ visible (ui (step c p (FetchSettles k result)))
       = (false, uploadedFiles (ui p), errors (ui p), form (ui p),
          toasts (ui p)
          ++ if reports_success c result then [sent_toast; send_failed_toast]
             else [send_failed_toast])).
Proof.
  intros (Haw & _ & _).
  destruct (isSubmitting (ui p)) eqn:Hsub; [destruct k as [|k]|].
  - right. split; [reflexivity|]. split; [reflexivity|].
    assert (Hk : awaiting p !! 0 = Some stale_event) by (rewrite Haw; reflexivity).
    split; [simpl; rewrite Hk; reflexivity|].
    apply (settle_stale c p 0 result Hk).
  - left. simpl. rewrite Haw. reflexivity.
  - left. simpl. rewrite Haw. reflexivity.
Qed.

(** X10. On the pages the component can reach, the controls of the form change
    only when the user edits them, and the staged files only when files
    are chosen or a preview is removed: no submission, whatever its
    outcome, touches either. *)
Theorem only_the_user_changes_form_and_files (c : Copy)
    (actions : list Action) (a : Action) :
  let p := run c initial actions in
  let p' := step c p a in
  match a with
  | Edit f => form (ui p') = f
  | _ => form (ui p') = form (ui p)
  end
  ∧ match a with
    | ChooseFiles _ | ClickRemove _ => True
    | _ => uploadedFiles (ui p') = uploadedFiles (ui p)
    end.
Proof.
  intros p p'. subst p'. pose proof (consistent_run c actions) as Hp. fold p in Hp.
  destruct a as [f|files|index| |k result].
  - split; reflexivity.
  - simpl. rewrite on_file_change_state. split; [reflexivity | exact I].
  - simpl. rewrite on_remove_state. split; [reflexivity | exact I].
  - destruct (isSubmitting (ui p)) eqn:Hsub.
    + simpl. rewrite Hsub. split; reflexivity.
    + rewrite (step_submit_idle c p Hsub).
      destruct (is_valid c (formValues_of (form (ui p)))); split; reflexivity.
  - destruct (settle_on_consistent c p k result Hp) as [E|(_ & _ & _ & V)].
    + rewrite E. split; reflexivity.
    + apply visible_inv in V as (_ & V2 & _ & V4 & _). split; assumption.
Qed.

Lemma count_send_failed_app ts us :
  count_send_failed (ts ++ us) = count_send_failed ts + count_send_failed us.
Proof. unfold count_send_failed. rewrite List.filter_app, length_app. reflexivity. Qed.

Lemma count_send_failed_too_large files :
  count_send_failed (map too_large_toast files) = 0.
Proof. induction files as [|f files IH]; [reflexivity | exact IH]. Qed.

Lemma console_of_inline c actions :
  c = inline -> console (ui (run c initial actions)) = [].
Proof.
  intros Hc. induction actions as [|a actions IH] using rev_ind; [reflexivity|].
  rewrite run_snoc. set (p := run c initial actions) in *.
  destruct a as [f|files|index| |k result].
  - exact IH.
  - simpl. rewrite on_file_change_state. exact IH.
  - simpl. rewrite on_remove_state. exact IH.
  - destruct (isSubmitting (ui p)) eqn:Hsub.
    + simpl. rewrite Hsub. exact IH.
    + rewrite (step_submit_idle c p Hsub).
      destruct (is_valid c (formValues_of (form (ui p)))); exact IH.
  - simpl. destruct (awaiting p !! k) as [e|]; [|exact IH]. simpl.
    rewrite Hc. simpl.
    rewrite (proj2 (on_settle_console e result (ui p))). exact IH.
Qed.

Lemma console_of_staged c actions :
  c = staged ->
  length (console (ui (run c initial actions)))
  = count_send_failed (toasts (ui (run c initial actions))).
Proof.
  intros Hc. induction actions as [|a actions IH] using rev_ind; [reflexivity|].
  rewrite run_snoc. pose proof (consistent_run c actions) as Hp.
  set (p := run c initial actions) in *.
  destruct a as [f|files|index| |k result].
  - exact IH.
  - simpl. rewrite on_file_change_state. simpl.
    rewrite count_send_failed_app, count_send_failed_too_large, Nat.add_0_r.
    exact IH.
  - simpl. rewrite on_remove_state. exact IH.
  - destruct (isSubmitting (ui p)) eqn:Hsub.
    + simpl. rewrite Hsub. exact IH.
    + rewrite (step_submit_idle c p Hsub).
      destruct (is_valid c (formValues_of (form (ui p)))); simpl;
        [exact IH|].
      rewrite count_send_failed_app, <- IH.
      change (count_send_failed [form_error_toast]) with 0. lia.
  - destruct (settle_on_consistent c p k result Hp)
      as [E|(_ & _ & U & V)]; [rewrite E; exact IH|].
    apply visible_inv in V as (_ & _ & _ & _ & V5). rewrite V5, U, Hc.
    simpl. rewrite (proj1 (on_settle_console stale_event result (ui p))).
    rewrite count_send_failed_app, length_app, <- IH. f_equal.
    destruct result as [|[b [[|[] [msg|]]|]]]; reflexivity.
Qed.

(** X11. The second copy never writes to the console.  The first copy writes
    one entry for each failure notification it shows, no more and no
    less. *)
Theorem console_matches_failures (actions : list Action) :
  console (ui (run inline initial actions)) = []
  ∧ length (console (ui (run staged initial actions)))
    = count_send_failed (toasts (ui (run staged initial actions))).
Proof.
  split; [apply console_of_inline | apply console_of_staged]; reflexivity.
Qed.

End Untouched.

(** ** What is rendered *)

Section Rendered.
Context `{EmailRegex}.

(** The messages of the schema are not empty. *)
Lemma validate_messages_nonempty c fv :
  map_Forall (fun _ m => m ≠ "") (validate c fv).
Proof.
  intros key m Hkey.
  assert (Hin : key ∈ field_keys).
  { apply (validate_dom c fv), elem_of_dom. eexists. exact Hkey. }
  destruct (validate_messages c fv) as (Hn & He & Hp & Hc & Hy & Hm).
  apply key_in_field_keys in Hin as [->|[->|[->|[->|[->| ->]]]]];
    [rewrite Hn in Hkey | rewrite He in Hkey | rewrite Hp in Hkey
     | rewrite Hc in Hkey | rewrite Hy in Hkey | rewrite Hm in Hkey];
    simpl in Hkey;
    repeat match type of Hkey with
           | (if ?b then _ else _) = _ => destruct b
           end;
    try discriminate Hkey; injection Hkey as <-; discriminate.
Qed.

Lemma errors_after_step c p a :
  errors (ui (step c p a)) = errors (ui p)
  ∨ errors (ui (step c p a)) = ∅
  ∨ errors (ui (step c p a)) = validate c (formValues_of (form (ui p))).
Proof.
  destruct a as [f|files|index| |k result].
  - left. reflexivity.
  - left. simpl. rewrite on_file_change_state. reflexivity.
  - left. simpl. rewrite on_remove_state. reflexivity.
  - destruct (isSubmitting (ui p)) eqn:Hsub.
    + left. simpl. rewrite Hsub. reflexivity.
    + rewrite (step_submit_idle c p Hsub).
      destruct (is_valid c (formValues_of (form (ui p)))); simpl; tauto.
  - simpl. destruct (awaiting p !! k) as [e|]; [|left; reflexivity]. simpl.
    pose proof (on_settle_visible c e result (ui p)) as V.
    destruct (reports_success c result); [destruct (currentTarget e)|];
      apply visible_inv in V as (_ & _ & V3 & _); rewrite V3; tauto.
Qed.

Lemma errors_nonempty_run c actions :
  map_Forall (fun _ m => m ≠ "") (errors (ui (run c initial actions))).
Proof.
  induction actions as [|a actions IH] using rev_ind.
  - apply map_Forall_empty.
  - rewrite run_snoc.
    destruct (errors_after_step c (run c initial actions) a) as [E|[E|E]];
      rewrite E;
      [exact IH | apply map_Forall_empty | apply validate_messages_nonempty].
Qed.

(** The six inputs of a state whose messages are not empty. *)
Lemma render_inputs c st key :
  map_Forall (fun _ m => m ≠ "") (errors st) ->
  match input_of (render c st) key with
  | Some input =>
      message_shown input = errors st !! key
      ∧ marked_invalid input = bool_decide (is_Some (errors st !! key))
  | None => key ∉ field_keys
  end.
Proof.
  intros Hne.
  assert (G : forall base k,
             message_shown (field_view base (errors st) k) = errors st !! k
             ∧ truthy_entry (errors st) k = errors st !! k).
  { intros base k. unfold field_view, truthy_entry. simpl.
    destruct (errors st !! k) as [m|] eqn:E; [|tauto].
    destruct (decide (m = "")) as [->|_]; [|tauto].
    exfalso. exact (Hne k "" E eq_refl). }
  unfold input_of.
  repeat match goal with
         | |- context [decide (key = ?k)] => destruct (decide (key = k)) as [->|?]
         end;
    try (unfold render;
         cbn [name_input email_input phone_input car_make_model_input
              year_input mileage_input];
         split; [apply (proj1 (G EmptyString _))|];
         unfold marked_invalid, field_view; cbn [className];
         rewrite (proj2 (G EmptyString _));
         destruct (errors st !! _); reflexivity).
  intros Hin. apply key_in_field_keys in Hin. tauto.
Qed.

(** X12. On every page the component can reach, each entry of the error map is
    shown: the input of the field has the red border exactly when the map
    has an entry for the field, the paragraph under it is the message of
    the entry, and the map has no entry that belongs to no input.  The
    submit button is disabled, and reads that the form is being sent,
    exactly while a request is pending. *)
Theorem reachable_view_shows_errors_and_progress (c : Copy)
    (actions : list Action) (key : string) :
  let p := run c initial actions in
  let v := render c (ui p) in
  match input_of v key with
  | Some input =>
      message_shown input = errors (ui p) !! key
      ∧ marked_invalid input = bool_decide (is_Some (errors (ui p) !! key))
  | None => errors (ui p) !! key = None
  end
  ∧ (submit_disabled v = true <-> awaiting p ≠ [])
  ∧ (submit_label v = "Šalje se..." <-> awaiting p ≠ []).
Proof.
  intros p v. subst v.
  destruct (consistent_run c actions) as (Haw & Hdom & _). fold p in Haw, Hdom.
  split.
  - pose proof (render_inputs c (ui p) key (errors_nonempty_run c actions)) as R.
    destruct (input_of (render c (ui p)) key); [exact R|].
    apply not_elem_of_dom. intros Hin. apply R, Hdom, Hin.
  - simpl. rewrite Haw. destruct (isSubmitting (ui p)); split; split;
      try discriminate; try reflexivity; intros N; now contradiction N.
Qed.

(** X13. When the submit handler is called on fields that do not validate,
    it returns without suspending, shows one notification, sends nothing,
    and keeps the form and the staged files; in the state it leaves, each
    required input shows the message of the first rule its trimmed value
    breaks and has the red border, the inputs of the fields that are in
    order show nothing, at least one input is marked, and the submit
    button is enabled. *)
Theorem rejected_call_marks_fields (c : Copy) (st : State) (key : string) :
  is_valid c (formValues_of (form st)) = false ->
  let fv := formValues_of (form st) in
  let call := on_submit (handlers c) {| currentTarget := Some contact_form |} st in
  let v := render c call.1 in
  call.2 = Returned
  ∧ match input_of v key with
    | Some input =>
        message_shown input = validate c fv !! key
        ∧ marked_invalid input = bool_decide (is_Some (validate c fv !! key))
    | None => validate c fv !! key = None
    end
  ∧ (exists k input,
        input_of v k = Some input ∧ marked_invalid input = true)
  ∧ toasts call.1 = toasts st ++ [form_error_toast]
  ∧ requests call.1 = requests st
  ∧ form call.1 = form st
  ∧ uploadedFiles call.1 = uploadedFiles st
  ∧ submit_disabled v = false.
Proof.
  intros Hbad fv call v. subst v call.
  rewrite on_submit_live, Hbad. fold fv. cbn [fst snd].
  set (st' := {| isSubmitting := false; errors := validate c fv |}).
  assert (R : forall k,
             match input_of (render c st') k with
             | Some input =>
                 message_shown input = validate c fv !! k
                 ∧ marked_invalid input
                   = bool_decide (is_Some (validate c fv !! k))
             | None => k ∉ field_keys
             end)
    by (intros k; apply (render_inputs c st' k), validate_messages_nonempty).
  split; [reflexivity|]. split; [|split; [|repeat split]].
  - pose proof (R key) as Rk. destruct (input_of (render c st') key);
      [exact Rk|].
    apply not_elem_of_dom. intros Hin. apply Rk, (validate_dom c fv), Hin.
  - assert (Hsome : exists k, is_Some (validate c fv !! k)).
    { rewrite is_valid_no_errors in Hbad. fold fv in Hbad.
      apply bool_decide_eq_false, map_choose in Hbad as (k & m & Hk).
      exists k. eexists. exact Hk. }
    destruct Hsome as [k Hk]. pose proof (R k) as Rk.
    destruct (input_of (render c st') k) as [input|] eqn:Ek.
    + exists k, input. split; [exact Ek|]. rewrite (proj2 Rk).
      apply bool_decide_eq_true. exact Hk.
    + exfalso. apply Rk, (validate_dom c fv), elem_of_dom, Hk.
Qed.

End Rendered.

(** The witness of X13: every required field of [ana] is filled and its
    email is well formed, only the phone is too short. *)
Lemma rejected_call_marks_fields_witness :
  let st := ui (@run zod3_email staged initial
                  [Edit (with_phone (of_ascii "123") ana)]) in
  let fv := formValues_of (form st) in
  let call :=
    on_submit (@handlers zod3_email staged)
      {| currentTarget := Some contact_form |} st in
  let v := render staged call.1 in
  call.2 = Returned
  ∧ match input_of v "phone" with
    | Some input =>
        message_shown input = @validate zod3_email staged fv !! "phone"
        ∧ marked_invalid input
          = bool_decide (is_Some (@validate zod3_email staged fv !! "phone"))
    | None => @validate zod3_email staged fv !! "phone" = None
    end
  ∧ (exists k input,
        input_of v k = Some input ∧ marked_invalid input = true)
  ∧ toasts call.1 = toasts st ++ [form_error_toast]
  ∧ requests call.1 = requests st
  ∧ form call.1 = form st
  ∧ uploadedFiles call.1 = uploadedFiles st
  ∧ submit_disabled v = false.
Proof.
  apply (@rejected_call_marks_fields zod3_email staged
           (ui (@run zod3_email staged initial
                  [Edit (with_phone (of_ascii "123") ana)])) "phone");
    vm_compute; reflexivity.
Defined.

Section Previews.
Context `{EmailRegex}.

Lemma imap_preview_files (k : nat) (l : list File) :
  map preview_file (imap (fun i f => preview_of (k + i) f) l) = l.
Proof.
  revert k. induction l as [|x l IH]; intros k; simpl; [reflexivity|].
  f_equal. rewrite <- (IH (S k)) at 2. f_equal.
  apply imap_ext. intros i y _. simpl. f_equal. lia.
Qed.

Lemma imap_preview_keys (k : nat) (l : list File) :
  map preview_key (imap (fun i f => preview_of (k + i) f) l) = seq k (length l).
Proof.
  revert k. induction l as [|x l IH]; intros k; simpl; [f_equal|].
  f_equal; [lia|]. rewrite <- (IH (S k)). f_equal.
  apply imap_ext. intros i y _. simpl. f_equal. lia.
Qed.

Lemma shown_files_render c st : shown_files (render c st) = uploadedFiles st.
Proof.
  unfold shown_files, render. cbn [previews].
  destruct (uploadedFiles st) as [|f l] eqn:E; [reflexivity|].
  change (0 <? length (f :: l)) with true. cbn match.
  apply (imap_preview_files 0).
Qed.

(** X14. The grid shows one preview for each staged file, in the order of the
    list and keyed by position; the grid and the count under the upload
    area are absent exactly when nothing is staged.  The remove button of
    a preview removes the file of that preview and no other: afterwards
    the grid shows the remaining files in their order, and the rest of the
    state is as it was. *)
Theorem previews_and_their_remove_buttons (c : Copy) (p : Page) :
  let files := uploadedFiles (ui p) in
  let v := render c (ui p) in
  shown_files v = files
  ∧ shown_keys v = seq 0 (length files)
  ∧ (previews v = None <-> files = [])
  ∧ (upload_count v = None <-> files = [])
  ∧ (forall ps k pv,
        previews v = Some ps -> ps !! k = Some pv ->
        let p' := step c p (preview_onClick pv) in
        files !! k = Some (preview_file pv)
        ∧ preview_caption pv = file_name (preview_file pv)
        ∧ shown_files (render c (ui p')) = take k files ++ drop (S k) files
        ∧ awaiting p' = awaiting p
        ∧ (isSubmitting (ui p'), errors (ui p'), form (ui p'), toasts (ui p'),
           requests (ui p'))
          = (isSubmitting (ui p), errors (ui p), form (ui p), toasts (ui p),
             requests (ui p))).
Proof.
  intros files v. subst v.
  assert (Hp : previews (render c (ui p))
               = if 0 <? length files then Some (imap preview_of files) else None)
    by reflexivity.
  assert (Hc : upload_count (render c (ui p)) = None <-> files = []).
  { unfold render. cbn [upload_count]. fold files.
    destruct files; simpl; split; try discriminate; reflexivity. }
  split; [apply shown_files_render|].
  split.
  { unfold shown_keys. rewrite Hp. destruct files as [|f l]; [reflexivity|].
    apply (imap_preview_keys 0). }
  split.
  { rewrite Hp. destruct files; simpl; split; try discriminate; reflexivity. }
  split; [exact Hc|].
  intros ps k pv Hps Hk p'. rewrite Hp in Hps.
  destruct (0 <? length files); [|discriminate Hps]. injection Hps as <-.
  rewrite list_lookup_imap in Hk.
  destruct (files !! k) as [file|] eqn:Ek; [|discriminate Hk].
  simpl in Hk. injection Hk as <-. cbn [preview_file preview_caption preview_of].
  split; [reflexivity|]. split; [reflexivity|].
  subst p'. cbn [preview_onClick preview_of step ui awaiting].
  rewrite shown_files_render, on_remove_state.
  unfold setUploadedFiles.
  cbn [uploadedFiles isSubmitting errors form toasts requests].
  fold files.
  pose proof (filter_index_ne_in 0 k files) as R. cbn [Nat.add] in R.
  rewrite R by (apply lookup_lt_Some in Ek; exact Ek).
  repeat split.
Qed.

End Previews.

(** ** Errors between two submit gestures *)

Section Stale.
Context `{EmailRegex}.

(** X15. Filling the form does not touch the error map, the in-flight flag or
    the pending request: the errors of a rejected submission stay as they
    are, under the inputs they were shown for, until the next submit
    gesture, also when the user has corrected the fields. *)
Theorem inputs_keep_errors (c : Copy) (p : Page) (actions : list Action) :
  let p' := run c p (List.filter is_input actions) in
  errors (ui p') = errors (ui p)
  ∧ isSubmitting (ui p') = isSubmitting (ui p)
  ∧ awaiting p' = awaiting p
  ∧ requests (ui p') = requests (ui p)
  ∧ forall key,
      option_map message_shown (input_of (render c (ui p')) key)
      = option_map message_shown (input_of (render c (ui p)) key).
Proof.
  intros p'. subst p'.
  assert (G : errors (ui (run c p (List.filter is_input actions))) = errors (ui p)
              ∧ isSubmitting (ui (run c p (List.filter is_input actions)))
                = isSubmitting (ui p)
              ∧ awaiting (run c p (List.filter is_input actions)) = awaiting p
              ∧ requests (ui (run c p (List.filter is_input actions)))
                = requests (ui p)).
  { induction actions as [|a actions IH] using rev_ind; [repeat split|].
    rewrite List.filter_app. simpl.
    destruct a as [f|files|index| |k result]; simpl;
      rewrite ?app_nil_r; try exact IH;
      rewrite run_snoc; simpl;
      rewrite ?on_file_change_state, ?on_remove_state; exact IH. }
  destruct G as (Ge & Gs & Ga & Gr). repeat split; try assumption.
  intros key. unfold input_of, render, field_view. rewrite Ge. reflexivity.
Qed.

End Stale.
